(** * SigMF archive reader: [sigmf/archivereader.py]

    A shallow embedding of [SigMFArchiveReader.__init__] and of the pieces of
    the Python standard library it calls ([str.endswith], [os.path.splitext],
    [os.path.dirname], [tarfile.TarInfo.isdir] / [isfile]), followed by the
    properties of the grouping loop, of the load loop and of the
    [try] / [finally] discipline around the tar handle. *)

From Stdlib Require Import ZArith Ascii String List Bool Lia.
From stdpp Require Import base tactics option list strings gmap.

(* ===================================================================== *)
(** ** Python strings *)
(* ===================================================================== *)

(** A Python [str] is a sequence of characters; slices [p[:i]] and [p[i:]]
    are [take] and [drop]. *)
Definition str := list ascii.

(** String literals of the source. *)
Definition lit (s : string) : str := list_ascii_of_string s.

(** [s.endswith(suffix)] *)
Definition endswith (s suffix : str) : bool :=
  (length suffix <=? length s)
  && bool_decide (drop (length s - length suffix) s = suffix).

(** [p.rfind(c)] for a one-character [c]: the highest index holding [c],
    or [-1]. *)
Fixpoint rfind (p : str) (c : ascii) : Z :=
  match p with
  | [] => (-1)%Z
  | x :: p' =>
      let r := rfind p' c in
      if (0 <=? r)%Z then (r + 1)%Z
      else if bool_decide (x = c) then 0%Z else (-1)%Z
  end.

(** [s.rstrip(c)] for a one-character [c]. *)
Fixpoint rstrip (s : str) (c : ascii) : str :=
  match s with
  | [] => []
  | x :: s' =>
      match rstrip s' c with
      | [] => if bool_decide (x = c) then [] else [x]
      | r => x :: r
      end
  end.

Definition sep : ascii := "/"%char.
Definition extsep : ascii := "."%char.

(** [os.path.splitext] (posixpath, through [genericpath._splitext] with
    [sep = '/'], [altsep = None], [extsep = '.']).  The [while] loop that
    skips leading dots of the file name returns the split as soon as one
    character of [p[sepIndex+1:dotIndex]] is not a dot. *)
Definition splitext (p : str) : str * str :=
  let sepIndex := rfind p sep in
  let dotIndex := rfind p extsep in
  if (sepIndex <? dotIndex)%Z then
    let filenameIndex := (sepIndex + 1)%Z in
    let leading :=
      take (Z.to_nat (dotIndex - filenameIndex)) (drop (Z.to_nat filenameIndex) p) in
    if existsb (fun ch => negb (bool_decide (ch = extsep))) leading
    then (take (Z.to_nat dotIndex) p, drop (Z.to_nat dotIndex) p)
    else (p, [])
  else (p, []).

(** [os.path.dirname] (posixpath). *)
Definition dirname (p : str) : str :=
  let i := (rfind p sep + 1)%Z in
  let head := take (Z.to_nat i) p in
  if negb (bool_decide (head = []))
     && negb (bool_decide (head = repeat sep (length head)))
  then rstrip head sep
  else head.

(* ===================================================================== *)
(** ** [tarfile.TarInfo] *)
(* ===================================================================== *)

Module TarInfo.

(** The attributes of a [TarInfo] the reader looks at. *)
Record t := mk {
  name : str;
  type : ascii;
  offset_data : Z;
  size : Z
}.

Definition REGTYPE : ascii := "0"%char.
Definition AREGTYPE : ascii := "000"%char.
Definition DIRTYPE : ascii := "5"%char.
Definition CONTTYPE : ascii := "7"%char.
Definition GNUTYPE_SPARSE : ascii := "S"%char.
Definition REGULAR_TYPES : list ascii :=
  [REGTYPE; AREGTYPE; CONTTYPE; GNUTYPE_SPARSE].

Definition isreg (m : t) : bool := bool_decide (type m ∈ REGULAR_TYPES).
Definition isfile (m : t) : bool := isreg m.
Definition isdir (m : t) : bool := bool_decide (type m = DIRTYPE).

End TarInfo.

#[global] Instance TarInfo_eq_dec : EqDecision TarInfo.t.
Proof. solve_decision. Defined.

(* ===================================================================== *)
(** ** [ArchiveRecording] *)
(* ===================================================================== *)

Module ArchiveRecording.

(** "Holds TarInfo objects found in archive for a recording"; both
    attributes start as [None]. *)
Record t := mk {
  metadata : option TarInfo.t;
  data : option TarInfo.t
}.

(** [ArchiveRecording()] *)
Definition new : t := mk None None.

End ArchiveRecording.

#[global] Instance ArchiveRecording_eq_dec : EqDecision ArchiveRecording.t.
Proof. solve_decision. Defined.

#[global] Instance ArchiveRecording_inhabited : Inhabited ArchiveRecording.t :=
  populate ArchiveRecording.new.

(* ===================================================================== *)
(** ** What the reader does to the outside world *)
(* ===================================================================== *)

(** Diagnostics and I/O of [__init__], in the order they happen. *)
Inductive event :=
| EvOpenPath (path : str)          (* tarfile.open(self.path) *)
| EvOpenBuffer                     (* tarfile.open(fileobj=archive_buffer, mode='r:') *)
| EvGetMembers                     (* tar_obj.getmembers() *)
| EvExtract (memb : TarInfo.t)     (* tar_obj.extractfile(metadata).read() *)
| EvPrint (args : list str)        (* print(...) *)
| EvWarn (msg : str)               (* warnings.warn(...) *)
| EvClose.                         (* tar_obj.close() *)

#[global] Instance event_eq_dec : EqDecision event.
Proof. solve_decision. Defined.

(** Truth value of an attribute that is either [None] or an object
    ([TarInfo] and [TarFile] define neither [__bool__] nor [__len__]). *)
Definition truthy {A} (o : option A) : bool :=
  match o with Some _ => true | None => false end.

(* ===================================================================== *)
(** ** The grouping loop (lines 68-100) *)
(* ===================================================================== *)

(** The local variables the first loop works on, plus what it prints. *)
Record scan := Scan {
  recording : ArchiveRecording.t;
  recordings : list ArchiveRecording.t;
  stdout : list event
}.

Definition set_metadata (r : ArchiveRecording.t) (memb : TarInfo.t) :=
  ArchiveRecording.mk (Some memb) (ArchiveRecording.data r).

Definition set_data (r : ArchiveRecording.t) (memb : TarInfo.t) :=
  ArchiveRecording.mk (ArchiveRecording.metadata r) (Some memb).

Definition print (args : list str) (st : scan) : scan :=
  Scan (recording st) (recordings st) (stdout st ++ [EvPrint args]).

(** The constants imported from [sigmf.archive]; that module is not part of
    the sources at hand, so their values stay parameters. *)
Class ArchiveExts := {
  SIGMF_COLLECTION_EXT : str;
  SIGMF_DATASET_EXT : str;
  SIGMF_METADATA_EXT : str;
  SIGMF_ARCHIVE_EXT : str
}.

Section Grouping.

Context {exts : ArchiveExts}.

(** Body of [for memb in tar_obj.getmembers()]. *)
Definition loop_body (st : scan) (memb : TarInfo.t) : scan :=
  if TarInfo.isdir memb then
    st
  else if TarInfo.isfile memb then
    if endswith (TarInfo.name memb) SIGMF_METADATA_EXT then
      let st :=
        if truthy (ArchiveRecording.metadata (recording st)) then
          (* save previous recording *)
          Scan ArchiveRecording.new (recordings st ++ [recording st]) (stdout st)
        else st in
      Scan (set_metadata (recording st) memb) (recordings st) (stdout st)
    else if endswith (TarInfo.name memb) SIGMF_DATASET_EXT then
      Scan (set_data (recording st) memb) (recordings st) (stdout st)
    else if endswith (TarInfo.name memb) SIGMF_COLLECTION_EXT then
      print [lit "A SigMF Collection file "; TarInfo.name memb;
             lit "was found but not handled."] st
    else
      print [lit "A regular file"; TarInfo.name memb;
             lit "was found but ignored in the archive"] st
  else
    print [lit "A member of type"; [TarInfo.type memb]; lit "and name";
           TarInfo.name memb; lit "was found but not handled, just FYI."] st.

(** State before the loop: [recordings = []], [recording = ArchiveRecording()]. *)
Definition scan_init : scan := Scan ArchiveRecording.new [] [].

Definition scan_members (members : list TarInfo.t) : scan :=
  fold_left loop_body members scan_init.

(** Lines 99-100: save the final recording. *)
Definition save_final (st : scan) : list ArchiveRecording.t :=
  if truthy (ArchiveRecording.metadata (recording st))
  then recordings st ++ [recording st]
  else recordings st.

(** The list [recordings] as the load loop sees it. *)
Definition grouping (members : list TarInfo.t) : list ArchiveRecording.t :=
  save_final (scan_members members).

(** The branch of the loop an entry takes: a Metadata entry is a regular
    file whose name ends with the metadata suffix, a Dataset entry a regular
    file that is not one and whose name ends with the dataset suffix. *)
Definition is_metadata (memb : TarInfo.t) : bool :=
  negb (TarInfo.isdir memb) && TarInfo.isfile memb
  && endswith (TarInfo.name memb) SIGMF_METADATA_EXT.

Definition is_dataset (memb : TarInfo.t) : bool :=
  negb (TarInfo.isdir memb) && TarInfo.isfile memb
  && negb (endswith (TarInfo.name memb) SIGMF_METADATA_EXT)
  && endswith (TarInfo.name memb) SIGMF_DATASET_EXT.

(** The dataset entry a run of entries leaves in the accumulator. *)
Definition last_dataset (l : list TarInfo.t) : option TarInfo.t :=
  last (filter (λ m, is_dataset m = true) l).

Definition has_metadata (l : list TarInfo.t) : bool := existsb is_metadata l.

(** The Metadata entries of a container, in container order. *)
Definition metadata_entries (l : list TarInfo.t) : list TarInfo.t :=
  filter (λ m, is_metadata m = true) l.


(** A run of entries stops a group: it is empty or starts with a Metadata
    entry. *)
Definition group_end (l : list TarInfo.t) : Prop :=
  match l with
  | [] => True
  | x :: _ => is_metadata x = true
  end.

End Grouping.

(* ===================================================================== *)
(** ** Collaborators of the reader *)
(* ===================================================================== *)

Definition bytes := list Byte.byte.

(** Exceptions that can leave [__init__]. *)
Inductive exn :=
| SigMFFileError (msg : str)   (* sigmf.error.SigMFFileError *)
| ValueError (msg : str)
| ValidationError              (* raised by SigMFFile.validate() *)
| ReadError                    (* tarfile / OS failure while opening or reading *)
| AttributeError.              (* attribute access on None *)

(** An opened [tarfile.TarFile]: the members it lists and the bytes an
    [extractfile(m).read()] returns; [None] stands for a raised error. *)
Record TarFile := {
  getmembers : option (list TarInfo.t);
  extractfile_read : TarInfo.t → option bytes
}.

(** Modelled from the spec: [SigMFFile.set_data_file] lives in
    [sigmf/sigmffile.py], which is missing here.  Per the spec's DatasetBinder
    it attaches a lazy reference (offset and byte length into the container,
    with the source and the two flags) without reading payload bytes. *)
Record DataFile := {
  df_path : option str;
  df_buffer : option bytes;
  df_skip_checksum : bool;
  df_offset : Z;
  df_size_bytes : Z;
  df_map_readonly : bool
}.

(** Modelled from the spec: the [SigMFFile] class of [sigmf/sigmffile.py] is
    missing here.  A recording is identified by its name, carries the raw
    metadata document it was built from and an optional dataset reference. *)
Record SigMFFile := {
  sf_name : str;
  sf_metadata : bytes;
  sf_data_file : option DataFile
}.

(** [SigMFFile(name, metadata=json_contents)] *)
Definition SigMFFile_new (name : str) (json_contents : bytes) : SigMFFile :=
  {| sf_name := name; sf_metadata := json_contents; sf_data_file := None |}.

(** [sigmffile.set_data_file(path, data_buffer=..., skip_checksum=...,
    offset=..., size_bytes=..., map_readonly=...)] *)
Definition set_data_file (f : SigMFFile) (path : option str)
    (data_buffer : option bytes) (skip_checksum : bool)
    (offset size_bytes : Z) (map_readonly : bool) : SigMFFile :=
  {| sf_name := sf_name f; sf_metadata := sf_metadata f;
     sf_data_file := Some {| df_path := path; df_buffer := data_buffer;
                             df_skip_checksum := skip_checksum;
                             df_offset := offset; df_size_bytes := size_bytes;
                             df_map_readonly := map_readonly |} |}.

(** What lies outside the reader: the file system and in-memory buffers as
    [tarfile.open] sees them, and the schema validation of
    [SigMFFile.validate()] ([false]: it raises). *)
Class Collaborators := {
  tarfile_open_path : str → option TarFile;
  tarfile_open_buffer : bytes → option TarFile;
  validate : SigMFFile → bool
}.

(* ===================================================================== *)
(** ** A state and exception monad for the body of [__init__] *)
(* ===================================================================== *)

(** The part of the state the [finally] clause and the outside world see:
    the local [tar_obj] and the events so far. *)
Record frame := Frame {
  tar_obj : option TarFile;
  log : list event
}.

Definition M (A : Type) : Type := frame → (exn + A) * frame.

#[global] Instance M_ret : MRet M := λ A a fr, (inr a, fr).

#[global] Instance M_bind : MBind M :=
  λ A B k m fr, match m fr with
                | (inl e, fr') => (inl e, fr')
                | (inr a, fr') => k a fr'
                end.

Definition raise {A} (e : exn) : M A := λ fr, (inl e, fr).

Definition emit (e : event) : M unit :=
  λ fr, (inr tt, Frame (tar_obj fr) (log fr ++ [e])).

Definition emit_all (es : list event) : M unit :=
  λ fr, (inr tt, Frame (tar_obj fr) (log fr ++ es)).

Definition set_tar_obj (t : TarFile) : M unit :=
  λ fr, (inr tt, Frame (Some t) (log fr)).

Definition get_tar_obj : M TarFile :=
  λ fr, match tar_obj fr with
        | Some t => (inr t, fr)
        | None => (inl AttributeError, fr)
        end.

(** A library call that either returns or raises. *)
Definition call {A} (r : option A) : M A :=
  match r with Some a => mret a | None => raise ReadError end.

(** Reading an attribute of a value that may be [None]. *)
Definition attr {A} (o : option A) : M A :=
  match o with Some a => mret a | None => raise AttributeError end.

(** [try: body finally: fin] *)
Definition try_finally {A} (body : M A) (fin : M unit) : M A :=
  λ fr, match body fr with
        | (r, fr') =>
            match fin fr' with
            | (inl e, fr'') => (inl e, fr'')
            | (inr _, fr'') => (r, fr'')
            end
        end.

(* ===================================================================== *)
(** ** [SigMFArchiveReader] *)
(* ===================================================================== *)

Module SigMFArchiveReader.

(** The attributes [__init__] sets on [self]. *)
Record t := mk {
  path : option str;
  sigmffiles : list SigMFFile
}.

Section Init.

Context {exts : ArchiveExts} {world : Collaborators}.

Variable path : option str.
Variable skip_checksum : bool.
Variable map_readonly : bool.
Variable archive_buffer : option bytes.

(** Lines 48-60: choose the source and open the container. *)
Definition open_tar : M unit :=
  match path with
  | Some p =>
      if negb (endswith p SIGMF_ARCHIVE_EXT) then
        let err := lit "archive extension != " ++ SIGMF_ARCHIVE_EXT in
        raise (SigMFFileError err)
      else
        emit (EvOpenPath p);;
        tar ← call (tarfile_open_path p);
        set_tar_obj tar
  | None =>
      match archive_buffer with
      | Some b =>
          emit EvOpenBuffer;;
          tar ← call (tarfile_open_buffer b);
          set_tar_obj tar
      | None =>
          raise (ValueError
            (lit "In sigmf.archivereader.__init__(), either `path` or `archive_buffer` must be not None"))
      end
  end.

(** Body of [for recording in recordings] (lines 104-123); the list
    [self.sigmffiles] is threaded through. *)
Definition load_body (sigmffiles : list SigMFFile)
    (recording : ArchiveRecording.t) : M (list SigMFFile) :=
  metadata ← attr (ArchiveRecording.metadata recording);
  let sigmffile_name := fst (splitext (TarInfo.name metadata)) in
  let sigmffile_name := dirname sigmffile_name in
  tar ← get_tar_obj;
  emit (EvExtract metadata);;
  json_contents ← call (extractfile_read tar metadata);
  let sigmffile := SigMFFile_new sigmffile_name json_contents in
  (if validate sigmffile then mret tt else raise ValidationError);;
  let data := ArchiveRecording.data recording in
  let sigmffile :=
    match data with
    | Some data =>
        let data_offset_size := (TarInfo.offset_data data, TarInfo.size data) in
        set_data_file sigmffile path archive_buffer skip_checksum
          (fst data_offset_size) (snd data_offset_size) map_readonly
    | None => sigmffile
    end in
  mret (sigmffiles ++ [sigmffile]).

Fixpoint for_recordings (recordings : list ArchiveRecording.t)
    (sigmffiles : list SigMFFile) : M (list SigMFFile) :=
  match recordings with
  | [] => mret sigmffiles
  | recording :: rest =>
      sigmffiles ← load_body sigmffiles recording;
      for_recordings rest sigmffiles
  end.

(** Lines 62-127: group the members, load each recording, warn when no
    recording has a dataset. *)
Definition parse : M (list SigMFFile) :=
  tar ← get_tar_obj;
  emit EvGetMembers;;
  members ← call (getmembers tar);
  let st := scan_members members in
  emit_all (stdout st);;
  let recordings := save_final st in
  sigmffiles ←
    (if bool_decide (recordings ≠ [])
     then for_recordings recordings []
     else mret []);
  (if negb (existsb (λ r, truthy (ArchiveRecording.data r)) recordings)
   then emit (EvWarn (lit "No file with " ++ SIGMF_DATASET_EXT
                      ++ lit " extension found in archive!"))
   else mret tt);;
  mret sigmffiles.

(** The [try] block (lines 48-127). *)
Definition try_block : M (list SigMFFile) :=
  open_tar;;
  parse.

(** The [finally] block (lines 129-130). *)
Definition finally_block : M unit :=
  λ fr, if truthy (tar_obj fr)
        then emit EvClose fr
        else (inr tt, fr).

(** [SigMFArchiveReader(path, skip_checksum, map_readonly,
    archive_buffer)]: the object or the exception the caller gets, and
    everything that happened meanwhile. *)
Definition init : (exn + t) * list event :=
  match try_finally try_block finally_block (Frame None []) with
  | (inl e, fr) => (inl e, log fr)
  | (inr sigmffiles, fr) => (inr (mk path sigmffiles), log fr)
  end.

(** *** Vocabulary for the properties below *)

(** The name lines 105-106 derive from a Metadata entry. *)
Definition sigmffile_name (metadata : TarInfo.t) : str :=
  dirname (fst (splitext (TarInfo.name metadata))).

(** The [SigMFFile] the load loop appends for [recording], once its
    metadata entry [metadata] has been read as [json_contents]. *)
Definition built (recording : ArchiveRecording.t) (metadata : TarInfo.t)
    (json_contents : bytes) : SigMFFile :=
  let sigmffile := SigMFFile_new (sigmffile_name metadata) json_contents in
  match ArchiveRecording.data recording with
  | Some data =>
      set_data_file sigmffile path archive_buffer skip_checksum
        (TarInfo.offset_data data) (TarInfo.size data) map_readonly
  | None => sigmffile
  end.

(** A Metadata entry that can be read and passes validation. *)
Definition sound (tar : TarFile) (metadata : TarInfo.t) (json_contents : bytes) : Prop :=
  extractfile_read tar metadata = Some json_contents
  ∧ validate (SigMFFile_new (sigmffile_name metadata) json_contents) = true.

(** [recording] loads, and yields [f]. *)
Definition loads (tar : TarFile) (recording : ArchiveRecording.t)
    (f : SigMFFile) : Prop :=
  ∃ metadata json_contents,
    ArchiveRecording.metadata recording = Some metadata
    ∧ sound tar metadata json_contents
    ∧ f = built recording metadata json_contents.

(** The arguments name a source and [tarfile.open] hands out [tar]. *)
Definition opens (tar : TarFile) : Prop :=
  match path with
  | Some p =>
      endswith p SIGMF_ARCHIVE_EXT = true ∧ tarfile_open_path p = Some tar
  | None =>
      ∃ b, archive_buffer = Some b ∧ tarfile_open_buffer b = Some tar
  end.

Definition open_event : event :=
  match path with
  | Some p => EvOpenPath p
  | None => EvOpenBuffer
  end.

(** A container whose member list can be read and whose Metadata entries
    are all sound. *)
Definition healthy (tar : TarFile) (members : list TarInfo.t) : Prop :=
  getmembers tar = Some members
  ∧ ∀ m, m ∈ metadata_entries members → ∃ json_contents, sound tar m json_contents.

Definition no_dataset_warning : event :=
  EvWarn (lit "No file with " ++ SIGMF_DATASET_EXT
          ++ lit " extension found in archive!").

End Init.

(** A computation that leaves [tar_obj] alone and closes nothing. *)
Definition quiet {A} (m : M A) : Prop :=
  ∀ fr, ∃ evs,
    snd (m fr) = Frame (tar_obj fr) (log fr ++ evs) ∧ EvClose ∉ evs.

(** [__len__] *)
Definition len (self : t) : nat := length (sigmffiles self).

(** [__getitem__] on an index inside the range. *)
Definition getitem (self : t) (i : nat) : option SigMFFile :=
  sigmffiles self !! i.

End SigMFArchiveReader.

(* ===================================================================== *)
(** ** The grouping loop with [ArchiveRecording] objects on a heap *)
(* ===================================================================== *)

(** [recordings.append(recording)] stores a reference, and the attribute
    assignments of the loop mutate the object [recording] refers to.  Here the
    objects live in a store, [recording] and the elements of [recordings] are
    addresses, and [ArchiveRecording()] allocates. *)
Module Refs.

Definition loc := nat.

Record state := State {
  heap : list ArchiveRecording.t;
  recording : loc;
  recordings : list loc;
  stdout : list event
}.

(** [ArchiveRecording()] *)
Definition alloc (h : list ArchiveRecording.t) : list ArchiveRecording.t * loc :=
  (h ++ [ArchiveRecording.new], length h).

(** The object behind a reference. *)
Definition deref (h : list ArchiveRecording.t) (l : loc) : ArchiveRecording.t :=
  h !!! l.

Definition print (args : list str) (st : state) : state :=
  State (heap st) (recording st) (recordings st) (stdout st ++ [EvPrint args]).

Section Loop.

Context {exts : ArchiveExts}.

Definition loop_body (st : state) (memb : TarInfo.t) : state :=
  if TarInfo.isdir memb then
    st
  else if TarInfo.isfile memb then
    if endswith (TarInfo.name memb) SIGMF_METADATA_EXT then
      let st :=
        if truthy (ArchiveRecording.metadata (deref (heap st) (recording st))) then
          let '(h, fresh) := alloc (heap st) in
          State h fresh (recordings st ++ [recording st]) (stdout st)
        else st in
      State (alter (λ r, set_metadata r memb) (recording st) (heap st))
           (recording st) (recordings st) (stdout st)
    else if endswith (TarInfo.name memb) SIGMF_DATASET_EXT then
      State (alter (λ r, set_data r memb) (recording st) (heap st))
           (recording st) (recordings st) (stdout st)
    else if endswith (TarInfo.name memb) SIGMF_COLLECTION_EXT then
      print [lit "A SigMF Collection file "; TarInfo.name memb;
             lit "was found but not handled."] st
    else
      print [lit "A regular file"; TarInfo.name memb;
             lit "was found but ignored in the archive"] st
  else
    print [lit "A member of type"; [TarInfo.type memb]; lit "and name";
           TarInfo.name memb; lit "was found but not handled, just FYI."] st.

Definition scan_init : state :=
  let '(h, fresh) := alloc [] in State h fresh [] [].

Definition scan_members (members : list TarInfo.t) : state :=
  fold_left loop_body members scan_init.

(** Lines 99-100. *)
Definition save_final (st : state) : state :=
  if truthy (ArchiveRecording.metadata (deref (heap st) (recording st)))
  then State (heap st) (recording st) (recordings st ++ [recording st]) (stdout st)
  else st.

End Loop.

(** The values a state of references stands for. *)
Definition abstraction (st : state) : scan :=
  Scan (deref (heap st) (recording st))
           (deref (heap st) <$> recordings st)
           (stdout st).

(** Every reference points into the store, and the object under
    construction is not yet among the saved ones. *)
Definition wf (st : state) : Prop :=
  recording st < length (heap st)
  ∧ Forall (λ l, l < length (heap st)) (recordings st)
  ∧ recording st ∉ recordings st.

End Refs.

(* ===================================================================== *)
(** ** Sample containers *)
(* ===================================================================== *)

(** Modelled from the spec: the suffixes of the spec's scenarios
    ([rec1.meta], [rec1.data]) and the archive extension it gives as an
    example; the collection suffix, which no scenario uses, is made up
    alike. *)
Definition scenario_exts : ArchiveExts := {|
  SIGMF_COLLECTION_EXT := lit ".collection";
  SIGMF_DATASET_EXT := lit ".data";
  SIGMF_METADATA_EXT := lit ".meta";
  SIGMF_ARCHIVE_EXT := lit ".sigmf"
|}.

(** A regular-file member. *)
Definition regular (name : string) (offset_data size : Z) : TarInfo.t :=
  TarInfo.mk (lit name) TarInfo.REGTYPE offset_data size.

(** [rec1.meta, rec1.data, rec2.meta, rec2.data] *)
Definition two_recordings : list TarInfo.t :=
  [regular "rec1.meta" 512 96; regular "rec1.data" 1536 4096;
   regular "rec2.meta" 6144 128; regular "rec2.data" 7168 2048].

(** The same recordings, each in a directory of its own. *)
Definition two_directories : list TarInfo.t :=
  [regular "rec1/rec1.meta" 512 96; regular "rec1/rec1.data" 1536 4096;
   regular "rec2/rec2.meta" 6144 128; regular "rec2/rec2.data" 7168 2048].

(** [rec1.meta] alone. *)
Definition metadata_only : list TarInfo.t := [regular "rec1.meta" 512 96].


(** ... and a second metadata entry right behind the first. *)
Definition dataset_first_two_metadata : list TarInfo.t :=
  [regular "stray.data" 512 1024; regular "rec1.meta" 2048 96;
   regular "rec2.meta" 3072 128].

(** Two dataset entries behind one metadata entry. *)
Definition two_datasets : list TarInfo.t :=
  [regular "rec1.meta" 512 96; regular "rec1.data" 1536 4096;
   regular "extra.data" 6144 2048].

(** The document every sample metadata entry holds: [{}]. *)
Definition document : bytes := [Byte.x7b; Byte.x7d].

Definition sample_tar (members : list TarInfo.t) : TarFile := {|
  getmembers := Some members;
  extractfile_read := λ _, Some document
|}.

(** A world with one archive, [scenario.sigmf], and a validator. *)
Definition sample_world (members : list TarInfo.t) (valid : SigMFFile → bool)
    : Collaborators := {|
  tarfile_open_path p :=
    if bool_decide (p = lit "scenario.sigmf") then Some (sample_tar members) else None;
  tarfile_open_buffer _ := None;
  validate := valid
|}.

Definition sample_path : option str := Some (lit "scenario.sigmf").

Definition accept_all : SigMFFile → bool := λ _, true.
Definition reject_all : SigMFFile → bool := λ _, false.

(** The sample world in which every document passes validation. *)
Definition scenario_world (members : list TarInfo.t) : Collaborators :=
  sample_world members accept_all.

(** The same suffixes with another archive extension. *)
Definition with_archive_ext (e : ArchiveExts) (archive_ext : str) : ArchiveExts := {|
  SIGMF_COLLECTION_EXT := @SIGMF_COLLECTION_EXT e;
  SIGMF_DATASET_EXT := @SIGMF_DATASET_EXT e;
  SIGMF_METADATA_EXT := @SIGMF_METADATA_EXT e;
  SIGMF_ARCHIVE_EXT := archive_ext
|}.

(** [isinstance(e, Warning)] for the events of the log. *)
Definition is_warning (e : event) : bool :=
  match e with EvWarn _ => true | _ => false end.

(* ===================================================================== *)
(** ** More vocabulary for the grouping loop *)
(* ===================================================================== *)

Section Reports.

Context {exts : ArchiveExts}.

(** An entry the loop reports with [print]: not a directory, and neither a
    Metadata nor a Dataset entry. *)
Definition reported (memb : TarInfo.t) : bool :=
  negb (TarInfo.isdir memb) && negb (is_metadata memb) && negb (is_dataset memb).

(** An entry that takes part in the grouping. *)
Definition grouped (memb : TarInfo.t) : bool :=
  is_metadata memb || is_dataset memb.

(** A container written recording by recording: for each recording some
    entries that are neither Metadata nor Dataset entries (its directory,
    say), then its metadata entry, then its dataset entry. *)
Definition laid_out (gs : list (list TarInfo.t * TarInfo.t * TarInfo.t))
    : list TarInfo.t :=
  flat_map (λ g, g.1.1 ++ [g.1.2; g.2]) gs.

Definition well_laid_out (gs : list (list TarInfo.t * TarInfo.t * TarInfo.t))
    : Prop :=
  Forall (λ g, Forall (λ x, grouped x = false) g.1.1
               ∧ is_metadata g.1.2 = true
               ∧ is_dataset g.2 = true) gs.

End Reports.

(** [print] events. *)
Definition is_print (e : event) : bool :=
  match e with EvPrint _ => true | _ => false end.

(* ===================================================================== *)
(** ** The sequence protocol of the reader *)
(* ===================================================================== *)

(** [__len__], [__iter__] and [__getitem__] hand over to the list
    [self.sigmffiles]; what follows is the subscripting of a Python list. *)
Module Sequence.

(** A subscript: an integer, or a slice with optional bounds and step. *)
Inductive subscript :=
| Index (i : Z)
| Slice (start stop step : option Z).

Inductive subscript_error :=
| IndexError          (* list index out of range *)
| ValueError.         (* slice step cannot be zero *)

(** [l[i]] for an integer [i]: negative indices count from the end. *)
Definition item {A} (l : list A) (i : Z) : subscript_error + A :=
  let n := Z.of_nat (length l) in
  let i := if (i <? 0)%Z then (i + n)%Z else i in
  if (i <? 0)%Z || (n <=? i)%Z then inl IndexError
  else match l !! Z.to_nat i with
       | Some x => inr x
       | None => inl IndexError
       end.

(** The bounds of a slice on a sequence of [n] items, for a non-zero
    [step]: a missing bound is the end the step runs to, a negative one
    counts from the end, and both are clipped to the sequence. *)
Definition adjust (n step : Z) (bound : option Z) (missing : Z) : Z :=
  match bound with
  | None => missing
  | Some b =>
      if (b <? 0)%Z then
        let b := (b + n)%Z in
        if (b <? 0)%Z then (if (step <? 0)%Z then -1 else 0)%Z else b
      else if (n <=? b)%Z then (if (step <? 0)%Z then n - 1 else n)%Z
      else b
  end.

Definition slice_length (start stop step : Z) : Z :=
  if (step <? 0)%Z then
    if (stop <? start)%Z then ((start - stop - 1) / (- step) + 1)%Z else 0%Z
  else
    if (start <? stop)%Z then ((stop - start - 1) / step + 1)%Z else 0%Z.

(** [l[start:stop:step]] *)
Definition slice {A} (l : list A) (start stop step : option Z)
    : subscript_error + list A :=
  let n := Z.of_nat (length l) in
  let step := default 1%Z step in
  if (step =? 0)%Z then inl ValueError
  else
    let start := adjust n step start (if (step <? 0)%Z then n - 1 else 0)%Z in
    let stop := adjust n step stop (if (step <? 0)%Z then -1 else n)%Z in
    let count := Z.to_nat (slice_length start stop step) in
    inr (omap (λ k, l !! Z.to_nat (start + Z.of_nat k * step)) (seq 0 count)).

(** [SigMFArchiveReader.__getitem__] *)
Definition getitem (self : SigMFArchiveReader.t) (sli : subscript)
    : subscript_error + (SigMFFile + list SigMFFile) :=
  match sli with
  | Index i =>
      match item (SigMFArchiveReader.sigmffiles self) i with
      | inl e => inl e
      | inr f => inr (inl f)
      end
  | Slice start stop step =>
      match slice (SigMFArchiveReader.sigmffiles self) start stop step with
      | inl e => inl e
      | inr fs => inr (inr fs)
      end
  end.

(** [SigMFArchiveReader.__iter__]: the items the iterator yields. *)
Definition iter (self : SigMFArchiveReader.t) : list SigMFFile :=
  SigMFArchiveReader.sigmffiles self.

End Sequence.

(* ===================================================================== *)
(** ** [sigmf/apps/convert_wav.py] *)
(* ===================================================================== *)

(** [os.path.basename] (posixpath). *)
Definition basename (p : str) : str :=
  let i := (rfind p sep + 1)%Z in
  drop (Z.to_nat i) p.

(** [s.startswith(prefix)] *)
Definition startswith (s prefix : str) : bool :=
  bool_decide (take (length prefix) s = prefix).

(** [os.path.join(a, b)] (posixpath, with one component to add). *)
Definition path_join (a b : str) : str :=
  if startswith b [sep] then b
  else if bool_decide (a = []) || endswith a [sep] then a ++ b
  else a ++ [sep] ++ b.

(** The values the metadata dictionaries of [convert_wav] hold. *)
Inductive pyval :=
| PStr (s : str)
| PInt (n : Z).

(** The keys [convert_wav] takes from the class [SigMFFile], which is not
    part of the sources at hand. *)
Class SigMFKeys := {
  AUTHOR_KEY : str;
  DATATYPE_KEY : str;
  DESCRIPTION_KEY : str;
  NUM_CHANNELS_KEY : str;
  RECORDER_KEY : str;
  SAMPLE_RATE_KEY : str;
  START_INDEX_KEY : str;
  DATETIME_KEY : str
}.

(** What [convert_wav] looks at in the array [wavfile.read] returns. *)
Record ndarray := {
  shape : list Z;
  dtype : str
}.

(** Exceptions that leave [convert_wav] and [main]. *)
Inductive wav_exn :=
| KeyError (key : Z)       (* [level_lut[...]] on a key it does not have *)
| Raised (cls : str).      (* raised by a collaborator; [cls] names its class *)

(** The identity of a [SigMFFile] object. *)
Definition ref := nat.

(** What lies outside [convert_wav].  Every call may raise and may change
    the state of the file system and the process, [os_state]:
    [wavfile.read], [getpass.getuser], [sigmf.utils.get_data_type_str] (a
    function of the array), [__file__], the ISO form of the modification
    time ([datetime.fromtimestamp(Path(f).stat().st_mtime).isoformat()]),
    [tempfile.mkdtemp], [ndarray.tofile], and of the class [SigMFFile],
    which is not part of the sources at hand, the constructor,
    [add_capture] and [tofile]; last [os.path.abspath]. *)
Class WavWorld := {
  os_state : Type;
  wavfile_read : str → os_state → (wav_exn + Z * ndarray) * os_state;
  getuser : os_state → (wav_exn + str) * os_state;
  get_data_type_str : ndarray → wav_exn + str;
  module_file : str;
  mtime_isoformat : str → os_state → (wav_exn + str) * os_state;
  mkdtemp : os_state → (wav_exn + str) * os_state;
  ndarray_tofile : ndarray → str → os_state → (wav_exn + unit) * os_state;
  SigMFFile_init : str → gmap str pyval → os_state → (wav_exn + ref) * os_state;
  add_capture : ref → Z → gmap str pyval → os_state → (wav_exn + unit) * os_state;
  SigMFFile_tofile : ref → str → bool → os_state → (wav_exn + unit) * os_state;
  abspath : str → os_state → (wav_exn + str) * os_state
}.

(** The calls [convert_wav] and [main] make, each with its arguments and
    with what came back. *)
Inductive wav_event :=
| WvRead (filename : str) (r : wav_exn + Z * ndarray)
| WvGetuser (r : wav_exn + str)
| WvDataType (a : ndarray) (r : wav_exn + str)
| WvMtime (filename : str) (r : wav_exn + str)
| WvMkdtemp (r : wav_exn + str)
| WvTofile (a : ndarray) (path : str) (r : wav_exn + unit)
| WvSigMFFile (data_file : str) (global_info : gmap str pyval) (r : wav_exn + ref)
| WvAddCapture (meta : ref) (start_index : Z) (metadata : gmap str pyval)
    (r : wav_exn + unit)
| WvArchive (meta : ref) (file_path : str) (toarchive : bool) (r : wav_exn + unit)
| WvAbspath (path : str) (r : wav_exn + str)
| WvBasicConfig (level : Z)
| WvLogInfo (msg : str).

(** The exception a call ended with, if it raised. *)
Definition failure (ev : wav_event) : option wav_exn :=
  let raised {A} (r : wav_exn + A) : option wav_exn :=
    match r with inl e => Some e | inr _ => None end in
  match ev with
  | WvRead _ r => raised r
  | WvGetuser r => raised r
  | WvDataType _ r => raised r
  | WvMtime _ r => raised r
  | WvMkdtemp r => raised r
  | WvTofile _ _ r => raised r
  | WvSigMFFile _ _ r => raised r
  | WvAddCapture _ _ _ r => raised r
  | WvArchive _ _ _ r => raised r
  | WvAbspath _ r => raised r
  | WvBasicConfig _ => None
  | WvLogInfo _ => None
  end.

(** The calls that come after the dataset file is written. *)
Definition uses_dataset_file (ev : wav_event) : bool :=
  match ev with
  | WvSigMFFile _ _ _ | WvAddCapture _ _ _ _ | WvArchive _ _ _ _ | WvAbspath _ _ => true
  | _ => false
  end.

Section ConvertWav.

Context {exts : ArchiveExts} {keys : SigMFKeys} {wav : WavWorld}.

(** State and exceptions of the converter: the outside world and the calls
    made so far. *)
Definition W (A : Type) : Type :=
  os_state * list wav_event → (wav_exn + A) * (os_state * list wav_event).

#[global] Instance W_ret : MRet W := λ A a st, (inr a, st).

#[global] Instance W_bind : MBind W :=
  λ A B k m st, match m st with
                | (inl e, st') => (inl e, st')
                | (inr a, st') => k a st'
                end.

Definition throw {A} (e : wav_exn) : W A := λ st, (inl e, st).

(** A call of a collaborator: it raises or returns, and is recorded. *)
Definition invoke {A} (f : os_state → (wav_exn + A) * os_state)
    (ev : wav_exn + A → wav_event) : W A :=
  λ st, let '(r, w) := f st.1 in (r, (w, st.2 ++ [ev r])).

(** A call that cannot raise. *)
Definition record (ev : wav_event) : W unit :=
  λ st, (inr tt, (st.1, st.2 ++ [ev])).

Definition convert_wav (input_wav_filename : str)
    (archive_filename start_datetime author : option str) : W str :=
  '(samp_rate, wav_data) ←
    invoke (wavfile_read input_wav_filename) (WvRead input_wav_filename);
  author ← match author with
           | None => invoke getuser WvGetuser
           | Some a => mret a
           end;
  datatype ← invoke (λ w, (get_data_type_str wav_data, w)) (WvDataType wav_data);
  let global_info : gmap str pyval :=
    <[SAMPLE_RATE_KEY := PInt samp_rate]>
    (<[RECORDER_KEY := PStr (basename module_file)]>
    (<[NUM_CHANNELS_KEY :=
         PInt (if length (shape wav_data) <? 2 then 1%Z
               else default 0%Z (shape wav_data !! 1))]>
    (<[DESCRIPTION_KEY := PStr (lit "Converted from " ++ input_wav_filename)]>
    (<[DATATYPE_KEY := PStr datatype]>
    (<[AUTHOR_KEY := PStr author]>
     ∅))))) in
  start_datetime ←
    match start_datetime with
    | None =>
        mtime ← invoke (mtime_isoformat input_wav_filename)
                  (WvMtime input_wav_filename);
        mret (Some (mtime ++ lit "Z"))
    | Some s => mret (Some s)
    end;
  let capture_info : gmap str pyval := <[START_INDEX_KEY := PInt 0]> ∅ in
  let capture_info :=
    match start_datetime with
    | Some s => <[DATETIME_KEY := PStr s]> capture_info
    | None => capture_info
    end in
  tmpdir ← invoke mkdtemp WvMkdtemp;
  let sigmf_data_filename := input_wav_filename ++ SIGMF_DATASET_EXT in
  let sigmf_data_path := path_join tmpdir sigmf_data_filename in
  invoke (ndarray_tofile wav_data sigmf_data_path)
    (WvTofile wav_data sigmf_data_path);;
  meta ← invoke (SigMFFile_init sigmf_data_path global_info)
           (WvSigMFFile sigmf_data_path global_info);
  invoke (add_capture meta 0 capture_info) (WvAddCapture meta 0 capture_info);;
  let archive_filename :=
    match archive_filename with
    | None => basename input_wav_filename ++ SIGMF_ARCHIVE_EXT
    | Some a => a
    end in
  invoke (SigMFFile_tofile meta archive_filename true)
    (WvArchive meta archive_filename true);;
  invoke (abspath archive_filename) (WvAbspath archive_filename).

(** The levels of the module [logging]. *)
Definition WARNING : Z := 30.
Definition INFO : Z := 20.
Definition DEBUG : Z := 10.

Definition level_lut : gmap Z Z :=
  <[2%Z := DEBUG]> (<[1%Z := INFO]> (<[0%Z := WARNING]> ∅)).

(** [main] after [parse_args]: [input], [author] and [verbose] are the
    parsed [args.input], [args.author] and [args.verbose]. *)
Definition main (input : str) (author : option str) (verbose : Z) : W unit :=
  level ← match level_lut !! Z.min verbose 2 with
          | None => throw (KeyError (Z.min verbose 2))
          | Some level => mret level
          end;
  record (WvBasicConfig level);;
  out_fname ← convert_wav input None None author;
  record (WvLogInfo (lit "Write " ++ out_fname)).

(** *** Vocabulary for the properties below *)

(** What a computation started in the world [w] ends with, and the calls
    it makes. *)
Definition outcome {A} (m : W A) (w : os_state) : wav_exn + A := (m (w, [])).1.

Definition calls {A} (m : W A) (w : os_state) : list wav_event := (m (w, [])).2.2.

(** A computation that only adds to the record of calls, and does the same
    whatever was recorded before. *)
Definition framed {A} (m : W A) : Prop :=
  ∀ w tr, m (w, tr) = ((m (w, [])).1, ((m (w, [])).2.1, tr ++ (m (w, [])).2.2)).

End ConvertWav.

(** The names the SigMF standard gives the keys. *)
Definition core_keys : SigMFKeys := {|
  AUTHOR_KEY := lit "core:author";
  DATATYPE_KEY := lit "core:datatype";
  DESCRIPTION_KEY := lit "core:description";
  NUM_CHANNELS_KEY := lit "core:num_channels";
  RECORDER_KEY := lit "core:recorder";
  SAMPLE_RATE_KEY := lit "core:sample_rate";
  START_INDEX_KEY := lit "core:sample_start";
  DATETIME_KEY := lit "core:datetime"
|}.

(** [s.split(c)] *)
Fixpoint split (s : str) (c : ascii) : list str :=
  match s with
  | [] => [[]]
  | x :: s' =>
      if bool_decide (x = c) then [] :: split s' c
      else match split s' c with
           | comp :: comps => (x :: comp) :: comps
           | [] => [[x]]
           end
  end.

(** [c.join(comps)] *)
Fixpoint join (c : ascii) (comps : list str) : str :=
  match comps with
  | [] => []
  | [comp] => comp
  | comp :: rest => comp ++ c :: join c rest
  end.

(** [os.path.normpath] (posixpath). *)
Definition normpath (path : str) : str :=
  if bool_decide (path = []) then lit "." else
  let initial_slashes :=
    if startswith path [sep] then
      if startswith path [sep; sep] && negb (startswith path [sep; sep; sep])
      then 2 else 1
    else 0 in
  let comps := split path sep in
  let new_comps :=
    fold_left (λ new_comps comp,
        if bool_decide (comp = []) || bool_decide (comp = lit ".") then new_comps
        else if negb (bool_decide (comp = lit ".."))
                || ((initial_slashes =? 0) && bool_decide (new_comps = []))
                || bool_decide (last new_comps = Some (lit ".."))
             then new_comps ++ [comp]
             else removelast new_comps)
      comps [] in
  let path := join sep new_comps in
  let path := replicate initial_slashes sep ++ path in
  if bool_decide (path = []) then lit "." else path.

(** What a file of the sample file system holds. *)
Inductive content :=
| Wav (rate : Z) (a : ndarray)
| Raw
| Archive.

(** A small file system without links in which everything may be written:
    its directories, its files, each under its absolute path, and the data
    files of the [SigMFFile] objects made so far. *)
Record sample_state := {
  st_dirs : list str;
  st_files : list (str * content);
  st_objects : list str
}.

Definition sample_cwd : str := lit "/home/alice".

Fixpoint lookup_file (files : list (str * content)) (q : str) : option content :=
  match files with
  | [] => None
  | (p, c) :: rest => if bool_decide (p = q) then Some c else lookup_file rest q
  end.

Definition is_directory (st : sample_state) (q : str) : bool :=
  bool_decide (q = [sep]) || bool_decide (q ∈ st_dirs st).

Definition is_file (st : sample_state) (q : str) : bool :=
  bool_decide (is_Some (lookup_file (st_files st) q)).

(** Path resolution as the operating system does it: every component but
    the last has to be an existing directory. *)
Fixpoint walk (st : sample_state) (stack comps : list str) : wav_exn + list str :=
  match comps with
  | [] => inr stack
  | comp :: rest =>
      if bool_decide (comp = []) || bool_decide (comp = lit ".") then
        walk st stack rest
      else if bool_decide (comp = lit "..") then walk st (removelast stack) rest
      else
        let stack := stack ++ [comp] in
        match rest with
        | [] => inr stack
        | _ =>
            if is_directory st (sep :: join sep stack) then walk st stack rest
            else if is_file st (sep :: join sep stack)
            then inl (Raised (lit "NotADirectoryError"))
            else inl (Raised (lit "FileNotFoundError"))
        end
  end.

Definition resolve (st : sample_state) (p : str) : wav_exn + str :=
  if bool_decide (p = []) then inl (Raised (lit "FileNotFoundError")) else
  match walk st [] (split (path_join sample_cwd p) sep) with
  | inl e => inl e
  | inr stack => inr (sep :: join sep stack)
  end.

Definition sample_array : ndarray :=
  {| shape := [1000%Z; 2%Z]; dtype := lit "int16" |}.

(** Three wav files: [tone.wav] in the current directory, in its
    subdirectory [sub] and in [/data]. *)
Definition sample_start : sample_state := {|
  st_dirs := [lit "/home"; lit "/home/alice"; lit "/home/alice/sub";
              lit "/data"; lit "/tmp"];
  st_files := [(lit "/home/alice/tone.wav", Wav 44100 sample_array);
               (lit "/home/alice/sub/tone.wav", Wav 44100 sample_array);
               (lit "/data/tone.wav", Wav 44100 sample_array)];
  st_objects := []
|}.

(** Writing a file: [open(p, 'wb')]. *)
Definition write_file (c : content) (p : str) (st : sample_state)
    : (wav_exn + unit) * sample_state :=
  match resolve st p with
  | inl e => (inl e, st)
  | inr q =>
      if is_directory st q then (inl (Raised (lit "IsADirectoryError")), st)
      else (inr tt, {| st_dirs := st_dirs st;
                       st_files := (q, c) :: st_files st;
                       st_objects := st_objects st |})
  end.

(** The collaborators over the sample file system.  The current directory
    is [/home/alice] and the user [alice]; every file has the same
    modification time; [tempfile.mkdtemp] has one name to give and makes
    that directory under [/tmp]; [SigMFFile(data_file=...)] wants its data
    file to exist, [add_capture] always returns, and [tofile] writes the
    archive where it is told to. *)
Definition sample_wav_world : WavWorld := {|
  os_state := sample_state;
  wavfile_read p st :=
    (match resolve st p with
     | inl e => inl e
     | inr q =>
         if is_directory st q then inl (Raised (lit "IsADirectoryError"))
         else match lookup_file (st_files st) q with
              | Some (Wav rate a) => inr (rate, a)
              | Some _ => inl (Raised (lit "ValueError"))
              | None => inl (Raised (lit "FileNotFoundError"))
              end
     end, st);
  getuser st := (inr (lit "alice"), st);
  get_data_type_str a :=
    if bool_decide (dtype a = lit "int16") then inr (lit "ri16_le")
    else inl (Raised (lit "ValueError"));
  module_file := lit "/usr/lib/python3/site-packages/sigmf/apps/convert_wav.py";
  mtime_isoformat p st :=
    (match resolve st p with
     | inl e => inl e
     | inr q =>
         if is_directory st q || is_file st q
         then inr (lit "2024-01-02T03:04:05")
         else inl (Raised (lit "FileNotFoundError"))
     end, st);
  mkdtemp st :=
    let name := lit "/tmp/tmpab12cd" in
    if negb (is_directory st (lit "/tmp")) then
      (inl (Raised (lit "FileNotFoundError")), st)
    else if is_directory st name || is_file st name
    then (inl (Raised (lit "FileExistsError")), st)
    else (inr name, {| st_dirs := name :: st_dirs st;
                       st_files := st_files st;
                       st_objects := st_objects st |});
  ndarray_tofile _ := write_file Raw;
  SigMFFile_init data_file _ st :=
    match resolve st data_file with
    | inl e => (inl e, st)
    | inr q =>
        if is_file st q
        then (inr (length (st_objects st)),
              {| st_dirs := st_dirs st;
                 st_files := st_files st;
                 st_objects := st_objects st ++ [q] |})
        else (inl (Raised (lit "SigMFFileError")), st)
    end;
  add_capture meta _ _ st :=
    (if bool_decide (meta < length (st_objects st)) then inr tt
     else inl (Raised (lit "ReferenceError")), st);
  SigMFFile_tofile meta file_path _ st :=
    if bool_decide (meta < length (st_objects st)) then write_file Archive file_path st
    else (inl (Raised (lit "ReferenceError")), st);
  abspath p st := (inr (normpath (path_join sample_cwd p)), st)
|}.


(** A directory member. *)
Definition directory (name : string) (offset_data : Z) : TarInfo.t :=
  TarInfo.mk (lit name) TarInfo.DIRTYPE offset_data 0.

(** Two recordings as an archive writer lays them out, each in a directory
    of its own, and a stray file at the end. *)
Definition written_groups : list (list TarInfo.t * TarInfo.t * TarInfo.t) :=
  [([directory "rec1" 512], regular "rec1/rec1.meta" 1024 96,
    regular "rec1/rec1.data" 2048 4096);
   ([directory "rec2" 6656], regular "rec2/rec2.meta" 7168 128,
    regular "rec2/rec2.data" 8192 2048)].

Definition written_trailer : list TarInfo.t := [regular "README" 10752 20].

(** A container with a dataset entry and nothing else. *)
Definition dataset_only : list TarInfo.t := [regular "stray.data" 512 1024].

(** Two recordings whose metadata entries lie in the same directory. *)
Definition one_directory : list TarInfo.t :=
  [regular "day1/morning.meta" 512 96; regular "day1/morning.data" 1536 4096;
   regular "day1/evening.meta" 6144 128; regular "day1/evening.data" 7168 2048].

(* ===================================================================== *)
(** * Properties *)
(* ===================================================================== *)

(** Case analysis on the test [if recording.metadata:] of the goal. *)
Ltac case_truthy :=
  match goal with
  | |- context [if truthy ?o then _ else _] => destruct (truthy o) eqn:?
  end.

(* ===================================================================== *)
(** ** Facts about paths *)
(* ===================================================================== *)

Section PathFacts.

Implicit Types (p dir file : str) (c : ascii).

Lemma rfind_bounds p c : (-1 ≤ rfind p c < Z.of_nat (length p))%Z.
Proof.
  induction p as [|x p IH]; simpl; [lia|].
  destruct (0 <=? rfind p c)%Z eqn:E; [lia|].
  case_bool_decide; lia.
Qed.

Lemma rfind_absent p c : c ∉ p → rfind p c = (-1)%Z.
Proof.
  induction p as [|x p IH]; simpl; [done|].
  rewrite not_elem_of_cons. intros [Hx Hp]. rewrite (IH Hp). simpl.
  by rewrite bool_decide_false by done.
Qed.

Lemma rfind_last_occurrence dir file c :
  c ∉ file → rfind (dir ++ c :: file) c = Z.of_nat (length dir).
Proof.
  intros Hf. induction dir as [|x dir IH]; simpl.
  - rewrite (rfind_absent file c Hf). simpl.
    by rewrite bool_decide_true by done.
  - rewrite IH. destruct (0 <=? Z.of_nat (length dir))%Z eqn:E; lia.
Qed.

(** [splitext] keeps a prefix that reaches past the last separator. *)
Lemma splitext_root p :
  ∃ k, fst (splitext p) = take k p ∧ (rfind p sep < Z.of_nat k)%Z.
Proof.
  unfold splitext.
  pose proof (rfind_bounds p sep). pose proof (rfind_bounds p extsep).
  destruct (rfind p sep <? rfind p extsep)%Z eqn:E.
  - destruct (existsb _ _).
    + exists (Z.to_nat (rfind p extsep)). split; [done|]. lia.
    + exists (length p). simpl. rewrite take_ge by done. split; [done|lia].
  - exists (length p). simpl. rewrite take_ge by done. split; [done|lia].
Qed.

Lemma rstrip_snoc p c : rstrip (p ++ [c]) c = rstrip p c.
Proof.
  induction p as [|x p IH]; simpl.
  - by rewrite bool_decide_true by done.
  - by rewrite IH.
Qed.

Lemma rstrip_id p x c : last p = Some x → x ≠ c → rstrip p c = p.
Proof.
  induction p as [|y p IH]; [done|]. intros Hl Hx. simpl.
  destruct p as [|z p].
  - simpl in *. injection Hl as ->. by rewrite bool_decide_false by done.
  - rewrite IH by done. done.
Qed.

Lemma dirname_no_sep p : sep ∉ p → dirname p = [].
Proof. intros H. unfold dirname. by rewrite (rfind_absent p sep H). Qed.

Lemma dirname_split dir file x :
  sep ∉ file → last dir = Some x → x ≠ sep →
  dirname (dir ++ sep :: file) = dir.
Proof.
  intros Hf Hl Hx. unfold dirname.
  rewrite (rfind_last_occurrence dir file sep Hf).
  replace (Z.to_nat (Z.of_nat (length dir) + 1)) with (length (dir ++ [sep]))
    by (rewrite length_app; simpl; lia).
  assert (take (length (dir ++ [sep])) (dir ++ sep :: file) = dir ++ [sep]) as ->.
  { rewrite (cons_middle sep dir file), app_assoc. apply take_app_length. }
  rewrite bool_decide_false by by destruct dir.
  rewrite bool_decide_false.
  - simpl. rewrite rstrip_snoc. by apply (rstrip_id dir x).
  - intros Heq.
    assert (x ∈ repeat sep (length (dir ++ [sep]))) as Hin.
    { rewrite <- Heq, elem_of_app. left. apply last_Some in Hl as [l' ->].
      rewrite elem_of_app, list_elem_of_singleton. by right. }
    apply list_elem_of_In, repeat_spec in Hin. done.
Qed.

Example splitext_metadata :
  splitext (lit "rec1/rec1.sigmf-meta") = (lit "rec1/rec1", lit ".sigmf-meta").
Proof. reflexivity. Qed.

Example splitext_hidden_file : splitext (lit "dir/.meta") = (lit "dir/.meta", []).
Proof. reflexivity. Qed.

Example dirname_nested : dirname (lit "a//b/c") = lit "a//b".
Proof. reflexivity. Qed.

Example dirname_root : dirname (lit "/rec1") = lit "/".
Proof. reflexivity. Qed.

Example dirname_plain : dirname (lit "rec1") = [].
Proof. reflexivity. Qed.

(** Lines 105-106 on a path without a directory part and on a path split
    at its last separator. *)
Lemma name_without_directory p :
  sep ∉ p → dirname (fst (splitext p)) = [].
Proof.
  intros H. destruct (splitext_root p) as (k & -> & _).
  apply dirname_no_sep. intros Hin. apply H.
  by eapply subseteq_take.
Qed.

Lemma name_is_directory dir file x :
  sep ∉ file → last dir = Some x → x ≠ sep →
  dirname (fst (splitext (dir ++ sep :: file))) = dir.
Proof.
  intros Hf Hl Hx.
  destruct (splitext_root (dir ++ sep :: file)) as (k & -> & Hk).
  rewrite (rfind_last_occurrence dir file sep Hf) in Hk.
  rewrite take_app_ge by lia.
  destruct (k - length dir) as [|n] eqn:E; [lia|]. simpl.
  apply (dirname_split dir (take n file) x); [|done..].
  intros Hin. apply Hf. by eapply subseteq_take.
Qed.

End PathFacts.

(* ===================================================================== *)
(** ** Facts about the grouping loop *)
(* ===================================================================== *)

Section GroupingFacts.

Context {exts : ArchiveExts}.

Implicit Types (st : scan) (memb m d x : TarInfo.t).
Implicit Types (members pre seg rest l : list TarInfo.t).

(** The three ways an entry can act on the accumulator. *)
Lemma loop_body_metadata st m :
  is_metadata m = true →
  loop_body st m =
    if truthy (ArchiveRecording.metadata (recording st))
    then Scan (ArchiveRecording.mk (Some m) None)
              (recordings st ++ [recording st]) (stdout st)
    else Scan (set_metadata (recording st) m) (recordings st) (stdout st).
Proof.
  unfold is_metadata, loop_body. intros H.
  apply andb_prop in H as [H Hm]. apply andb_prop in H as [Hd Hf].
  apply negb_true_iff in Hd. rewrite Hd, Hf, Hm.
  by destruct (truthy _).
Qed.

Lemma loop_body_dataset st d :
  is_dataset d = true →
  loop_body st d = Scan (set_data (recording st) d) (recordings st) (stdout st).
Proof.
  unfold is_dataset, loop_body. intros H.
  apply andb_prop in H as [H Hs]. apply andb_prop in H as [H Hm].
  apply andb_prop in H as [Hd Hf].
  apply negb_true_iff in Hd, Hm. by rewrite Hd, Hf, Hm, Hs.
Qed.

Lemma loop_body_other st x :
  is_metadata x = false → is_dataset x = false →
  recording (loop_body st x) = recording st
  ∧ recordings (loop_body st x) = recordings st.
Proof.
  unfold is_metadata, is_dataset, loop_body.
  destruct (TarInfo.isdir x), (TarInfo.isfile x); simpl; try done.
  destruct (endswith _ SIGMF_METADATA_EXT); simpl; try done.
  destruct (endswith _ SIGMF_DATASET_EXT); simpl; try done.
  by destruct (endswith _ SIGMF_COLLECTION_EXT).
Qed.

Lemma is_metadata_not_dataset x : is_metadata x = true → is_dataset x = false.
Proof.
  unfold is_metadata, is_dataset. intros H.
  apply andb_prop in H as [_ ->]. simpl.
  by rewrite andb_false_r.
Qed.

(** Entries saved earlier and lines printed earlier ride along unchanged. *)
Lemma loop_body_frame pfx out r rs o x :
  loop_body (Scan r (pfx ++ rs) (out ++ o)) x =
    let s := loop_body (Scan r rs o) x in
    Scan (recording s) (pfx ++ recordings s) (out ++ stdout s).
Proof.
  unfold loop_body, print; simpl.
  repeat (case_match; simpl; try done); by rewrite <- ?(assoc_L (++)).
Qed.

Lemma fold_loop_frame pfx out l : ∀ r rs o,
  fold_left loop_body l (Scan r (pfx ++ rs) (out ++ o)) =
    let s := fold_left loop_body l (Scan r rs o) in
    Scan (recording s) (pfx ++ recordings s) (out ++ stdout s).
Proof.
  induction l as [|x l IH]; intros r rs o; simpl; [done|].
  rewrite loop_body_frame; simpl.
  destruct (loop_body (Scan r rs o) x) as [r' rs' o'] eqn:E; simpl.
  apply IH.
Qed.

(** A run of entries without a Metadata entry only moves the dataset slot
    of the accumulator. *)
Lemma fold_loop_no_metadata seg : ∀ st,
  has_metadata seg = false →
  recording (fold_left loop_body seg st) =
    ArchiveRecording.mk
      (ArchiveRecording.metadata (recording st))
      (match last_dataset seg with
       | Some d => Some d
       | None => ArchiveRecording.data (recording st)
       end)
  ∧ recordings (fold_left loop_body seg st) = recordings st.
Proof.
  unfold has_metadata, last_dataset.
  induction seg as [|x seg IH]; intros st H; simpl in *.
  - by destruct (recording st).
  - apply orb_false_iff in H as [Hx H].
    destruct (IH (loop_body st x) H) as [-> ->].
    rewrite filter_cons. case_decide as Hd.
    + rewrite loop_body_dataset by done. simpl.
      rewrite last_cons. by destruct (last _).
    + apply not_true_is_false in Hd.
      by destruct (loop_body_other st x Hx Hd) as [-> ->].
Qed.

Lemma scan_no_metadata l :
  has_metadata l = false →
  recording (scan_members l) = ArchiveRecording.mk None (last_dataset l)
  ∧ recordings (scan_members l) = [].
Proof.
  intros H. destruct (fold_loop_no_metadata l scan_init H) as [Hr Hrs].
  split; [|done]. unfold scan_members. rewrite Hr. simpl.
  by destruct (last_dataset l).
Qed.

(** Once a Metadata entry has been seen the accumulator stays OPEN. *)
Lemma fold_loop_open l : ∀ st,
  truthy (ArchiveRecording.metadata (recording st)) || has_metadata l = true →
  truthy (ArchiveRecording.metadata (recording (fold_left loop_body l st))) = true.
Proof.
  induction l as [|x l IH]; intros st H; simpl in *.
  - by rewrite orb_false_r in H.
  - apply IH. destruct (is_metadata x) eqn:Hx.
    + rewrite loop_body_metadata by done. by case_truthy.
    + simpl in H. destruct (is_dataset x) eqn:Hd.
      * rewrite loop_body_dataset by done. done.
      * by destruct (loop_body_other st x Hx Hd) as [-> _].
Qed.

Lemma scan_has_metadata l :
  has_metadata l = true →
  truthy (ArchiveRecording.metadata (recording (scan_members l))) = true.
Proof. intros H. apply fold_loop_open. by rewrite H, orb_true_r. Qed.

Lemma grouping_nil : grouping [] = [].
Proof. done. Qed.

(** From an OPEN accumulator, a run that starts a new group flushes the
    current one and then behaves as on a fresh container. *)
Lemma save_final_open st rest :
  truthy (ArchiveRecording.metadata (recording st)) = true →
  group_end rest →
  save_final (fold_left loop_body rest st)
  = recordings st ++ recording st :: grouping rest.
Proof.
  intros Hopen Hend. destruct rest as [|m rest]; simpl in *.
  - unfold save_final. by rewrite Hopen.
  - unfold grouping, scan_members. simpl.
    rewrite !loop_body_metadata by done. rewrite Hopen. simpl.
    pose proof (fold_loop_frame (recordings st ++ [recording st]) (stdout st)
                  rest (ArchiveRecording.mk (Some m) None) [] []) as F.
    rewrite !app_nil_r in F. unfold set_metadata; simpl. rewrite F. simpl.
    unfold save_final; simpl.
    destruct (truthy (ArchiveRecording.metadata (recording (fold_left _ _ _))));
      by rewrite <- !app_assoc.
Qed.

(** *** The shape of the grouping

    Around the Metadata entry [m]: [pre] is what comes before, [seg] the
    entries up to the next Metadata entry (or the end), [rest] what
    follows.  The recording opened by [m] takes the last Dataset entry of
    [seg]; if [seg] has none and [m] is the first Metadata entry, it keeps
    the last Dataset entry seen before [m]. *)
Lemma grouping_shape pre m seg rest :
  is_metadata m = true →
  has_metadata seg = false →
  group_end rest →
  grouping (pre ++ m :: seg ++ rest)
  = (if has_metadata pre then grouping pre else [])
    ++ ArchiveRecording.mk (Some m)
         (match last_dataset seg with
          | Some d => Some d
          | None => if has_metadata pre then None else last_dataset pre
          end)
       :: grouping rest.
Proof.
  intros Hm Hseg Hend. unfold grouping at 1, scan_members.
  rewrite fold_left_app. simpl. rewrite fold_left_app.
  fold (scan_members pre).
  set (s1 := loop_body (scan_members pre) m).
  destruct (fold_loop_no_metadata seg s1 Hseg) as [Hr Hrs].
  assert (Hopen : truthy (ArchiveRecording.metadata (recording s1)) = true).
  { unfold s1. rewrite loop_body_metadata by done. by case_truthy. }
  rewrite save_final_open; [|by rewrite Hr; simpl|done].
  rewrite Hr, Hrs. unfold s1. rewrite loop_body_metadata by done.
  destruct (has_metadata pre) eqn:Hpre.
  - rewrite (scan_has_metadata pre Hpre). simpl.
    unfold grouping, save_final. by rewrite (scan_has_metadata pre Hpre).
  - destruct (scan_no_metadata pre Hpre) as [Hr1 Hrs1].
    rewrite Hr1, Hrs1. simpl. done.
Qed.

(** One recording per Metadata entry, in container order, whatever else
    the container holds. *)
Lemma grouping_metadata members :
  ArchiveRecording.metadata <$> grouping members
  = Some <$> metadata_entries members.
Proof.
  unfold grouping, scan_members, metadata_entries.
  assert (G : ∀ l st,
    ArchiveRecording.metadata <$> save_final (fold_left loop_body l st)
    = (ArchiveRecording.metadata <$> save_final st)
      ++ (Some <$> filter (λ m, is_metadata m = true) l)).
  { induction l as [|x l IH]; intros st; simpl.
    - by rewrite app_nil_r.
    - rewrite IH, filter_cons. case_decide as Hx.
      + rewrite loop_body_metadata by done. unfold save_final.
        destruct (recording st) as [[?|] ?]; simpl;
          rewrite ?fmap_app; simpl; by rewrite <- ?(assoc_L (++)).
      + apply not_true_is_false in Hx. f_equal.
        unfold save_final. destruct (is_dataset x) eqn:Hd.
        * rewrite loop_body_dataset by done. simpl.
          destruct (recording st) as [[?|] ?]; simpl; by rewrite ?fmap_app.
        * by destruct (loop_body_other st x Hx Hd) as [-> ->]. }
  by rewrite G.
Qed.

Lemma grouping_length members :
  length (grouping members) = length (metadata_entries members).
Proof.
  rewrite <- (length_fmap ArchiveRecording.metadata), grouping_metadata.
  by rewrite length_fmap.
Qed.

(** *** Cutting a container around its Metadata entries *)

Lemma has_metadata_entries l :
  has_metadata l = false ↔ metadata_entries l = [].
Proof.
  unfold has_metadata, metadata_entries.
  induction l as [|x l IH]; simpl; [done|].
  rewrite filter_cons, orb_false_iff, IH.
  case_decide as Hx.
  - split; [intros [? _]; congruence | done].
  - apply not_true_is_false in Hx. tauto.
Qed.

Lemma split_group l :
  ∃ seg rest, l = seg ++ rest ∧ has_metadata seg = false ∧ group_end rest.
Proof.
  induction l as [|x l (seg & rest & -> & Hseg & Hend)].
  - by exists [], [].
  - destruct (is_metadata x) eqn:Hx.
    + by exists [], (x :: seg ++ rest).
    + exists (x :: seg), rest. simpl. by rewrite Hx.
Qed.

Lemma split_kth_metadata l : ∀ k m,
  metadata_entries l !! k = Some m →
  ∃ pre seg rest,
    l = pre ++ m :: seg ++ rest
    ∧ is_metadata m = true
    ∧ length (metadata_entries pre) = k
    ∧ has_metadata seg = false
    ∧ group_end rest.
Proof.
  unfold metadata_entries.
  induction l as [|x l IH]; intros k m Hk; simpl in *; [done|].
  rewrite filter_cons in Hk. case_decide as Hx.
  - destruct k as [|k]; simpl in Hk.
    + injection Hk as ->.
      destruct (split_group l) as (seg & rest & -> & ? & ?).
      by exists [], seg, rest.
    + destruct (IH k m Hk) as (pre & seg & rest & -> & ? & ? & ? & ?).
      exists (x :: pre), seg, rest. repeat split; try done.
      simpl. rewrite filter_cons, decide_True by done. simpl. by f_equal.
  - destruct (IH k m Hk) as (pre & seg & rest & -> & ? & ? & ? & ?).
    exists (x :: pre), seg, rest. repeat split; try done.
    simpl. by rewrite filter_cons, decide_False by done.
Qed.


Lemma last_dataset_None l :
  last_dataset l = None ↔ Forall (λ x, is_dataset x = false) l.
Proof.
  unfold last_dataset. rewrite last_None, Forall_forall. split.
  - intros H x Hx. destruct (is_dataset x) eqn:E; [|done].
    assert (x ∈ filter (λ m, is_dataset m = true) l) as Hin
      by by apply list_elem_of_filter.
    rewrite H in Hin. by apply elem_of_nil in Hin.
  - intros H. induction l as [|x l IH]; [done|].
    rewrite filter_cons, decide_False.
    + apply IH. intros y Hy. apply H. by right.
    + rewrite (H x) by by left. done.
Qed.

Lemma last_dataset_split l d :
  last_dataset l = Some d →
  ∃ a b, l = a ++ d :: b ∧ is_dataset d = true ∧ last_dataset b = None.
Proof.
  unfold last_dataset.
  induction l as [|x l IH] using rev_ind; [done|].
  rewrite filter_app, filter_cons, filter_nil. case_decide as Hx.
  - rewrite last_snoc. intros [= ->]. by exists l, [].
  - rewrite app_nil_r. intros H.
    destruct (IH H) as (a & b & -> & Hd & Hb).
    exists a, (b ++ [x]). rewrite <- app_assoc. repeat split; try done.
    rewrite filter_app, filter_cons, filter_nil, decide_False by done.
    by rewrite app_nil_r.
Qed.

(** *** The recording at position [k]

    It is opened by the [k]-th Metadata entry and shaped as in
    [grouping_shape]. *)
Lemma grouping_lookup members k r :
  grouping members !! k = Some r →
  ∃ pre m seg rest,
    members = pre ++ m :: seg ++ rest
    ∧ is_metadata m = true
    ∧ length (metadata_entries pre) = k
    ∧ has_metadata seg = false
    ∧ group_end rest
    ∧ r = ArchiveRecording.mk (Some m)
            (match last_dataset seg with
             | Some d => Some d
             | None => if has_metadata pre then None else last_dataset pre
             end).
Proof.
  intros Hk.
  assert (∃ m, metadata_entries members !! k = Some m) as [m Hm].
  { apply lookup_lt_is_Some. rewrite <- grouping_length.
    by eapply lookup_lt_Some. }
  destruct (split_kth_metadata members k m Hm)
    as (pre & seg & rest & -> & Hmm & Hlen & Hseg & Hend).
  exists pre, m, seg, rest. repeat split; try done.
  rewrite (grouping_shape pre m seg rest Hmm Hseg Hend) in Hk.
  assert (length (if has_metadata pre then grouping pre else []) = k) as Hl.
  { destruct (has_metadata pre) eqn:Hp.
    - by rewrite grouping_length.
    - apply has_metadata_entries in Hp. by rewrite Hp in Hlen. }
  rewrite lookup_app_r in Hk by lia.
  rewrite Hl, Nat.sub_diag in Hk. simpl in Hk. by injection Hk as <-.
Qed.

End GroupingFacts.

(* ===================================================================== *)
(** ** Order of binding in the grouping loop *)
(* ===================================================================== *)

Section GroupingProperties.

Context {exts : ArchiveExts}.


End GroupingProperties.

(* ===================================================================== *)
(** ** Facts about the load loop and the [try] block *)
(* ===================================================================== *)

Section ReaderFacts.

Context {exts : ArchiveExts} {world : Collaborators}.

Variable path : option str.
Variable skip_checksum : bool.
Variable map_readonly : bool.
Variable archive_buffer : option bytes.

Local Abbreviation load_body :=
  (SigMFArchiveReader.load_body path skip_checksum map_readonly archive_buffer).
Local Abbreviation for_recordings :=
  (SigMFArchiveReader.for_recordings path skip_checksum map_readonly archive_buffer).
Local Abbreviation parse :=
  (SigMFArchiveReader.parse path skip_checksum map_readonly archive_buffer).
Local Abbreviation try_block :=
  (SigMFArchiveReader.try_block path skip_checksum map_readonly archive_buffer).
Local Abbreviation init :=
  (SigMFArchiveReader.init path skip_checksum map_readonly archive_buffer).
Local Abbreviation built :=
  (SigMFArchiveReader.built path skip_checksum map_readonly archive_buffer).
Local Abbreviation loads :=
  (SigMFArchiveReader.loads path skip_checksum map_readonly archive_buffer).
Local Abbreviation opens := (SigMFArchiveReader.opens path archive_buffer).
Local Abbreviation open_tar := (SigMFArchiveReader.open_tar path archive_buffer).
Local Abbreviation open_event := (SigMFArchiveReader.open_event path).
Local Abbreviation sound := SigMFArchiveReader.sound.
Local Abbreviation healthy := SigMFArchiveReader.healthy.
Local Abbreviation no_dataset_warning := SigMFArchiveReader.no_dataset_warning.

Implicit Types (tar : TarFile) (fr : frame) (lg : list event).
Implicit Types (r : ArchiveRecording.t) (rs : list ArchiveRecording.t).
Implicit Types (f : SigMFFile) (fs : list SigMFFile) (m : TarInfo.t).

Lemma bind_inr {A B} (c : M A) (k : A → M B) fr a fr' :
  c fr = (inr a, fr') → (c ≫= k) fr = k a fr'.
Proof. unfold mbind, M_bind. by intros ->. Qed.

Lemma bind_inl {A B} (c : M A) (k : A → M B) fr e fr' :
  c fr = (inl e, fr') → (c ≫= k) fr = (inl e, fr').
Proof. unfold mbind, M_bind. by intros ->. Qed.

(** *** One iteration of the load loop *)

Lemma load_body_ok tar fs r m json lg :
  ArchiveRecording.metadata r = Some m →
  sound tar m json →
  load_body fs r (Frame (Some tar) lg)
  = (inr (fs ++ [built r m json]), Frame (Some tar) (lg ++ [EvExtract m])).
Proof.
  intros Hm [Hread Hval].
  unfold SigMFArchiveReader.load_body, SigMFArchiveReader.built,
    SigMFArchiveReader.sigmffile_name in *.
  rewrite Hm. cbn [attr]. unfold mbind, M_bind, mret, M_ret, get_tar_obj, emit.
  cbn [tar_obj log]. rewrite Hread. cbn [call]. unfold mret, M_ret.
  rewrite Hval. by destruct (ArchiveRecording.data r).
Qed.

Lemma load_body_invalid tar fs r m json lg :
  ArchiveRecording.metadata r = Some m →
  extractfile_read tar m = Some json →
  validate (SigMFFile_new (SigMFArchiveReader.sigmffile_name m) json) = false →
  load_body fs r (Frame (Some tar) lg)
  = (inl ValidationError, Frame (Some tar) (lg ++ [EvExtract m])).
Proof.
  intros Hm Hread Hval.
  unfold SigMFArchiveReader.load_body, SigMFArchiveReader.sigmffile_name in *.
  rewrite Hm. cbn [attr]. unfold mbind, M_bind, mret, M_ret, get_tar_obj, emit.
  cbn [tar_obj log]. rewrite Hread. cbn [call]. unfold mret, M_ret.
  by rewrite Hval.
Qed.

(** *** The whole load loop *)

Lemma for_recordings_ok tar rs : ∀ fs' fs lg,
  Forall2 (loads tar) rs fs' →
  for_recordings rs fs (Frame (Some tar) lg)
  = (inr (fs ++ fs'),
     Frame (Some tar) (lg ++ (EvExtract <$> omap ArchiveRecording.metadata rs))).
Proof.
  induction rs as [|r rs IH]; intros fs' fs lg H.
  - apply Forall2_nil_inv_l in H as ->. simpl. by rewrite !app_nil_r.
  - apply Forall2_cons_inv_l in H as (f & fs'' & (m & json & Hm & Hs & ->) & H & ->).
    simpl. erewrite bind_inr by by apply load_body_ok.
    rewrite (IH _ _ _ H), Hm. simpl.
    by rewrite <- !app_assoc.
Qed.

Lemma for_recordings_invalid tar rs1 fs1 r rs2 m json fs lg :
  Forall2 (loads tar) rs1 fs1 →
  ArchiveRecording.metadata r = Some m →
  extractfile_read tar m = Some json →
  validate (SigMFFile_new (SigMFArchiveReader.sigmffile_name m) json) = false →
  for_recordings (rs1 ++ r :: rs2) fs (Frame (Some tar) lg)
  = (inl ValidationError,
     Frame (Some tar)
       (lg ++ (EvExtract <$> omap ArchiveRecording.metadata rs1) ++ [EvExtract m])).
Proof.
  intros H Hm Hread Hval. revert fs1 fs lg H.
  induction rs1 as [|r1 rs1 IH]; intros fs1 fs lg H.
  - simpl. by erewrite bind_inl by by eapply load_body_invalid.
  - apply Forall2_cons_inv_l in H as (f & fs'' & (m1 & j1 & Hm1 & Hs & ->) & H & ->).
    simpl. erewrite bind_inr by by apply load_body_ok.
    rewrite (IH _ _ _ H), Hm1. simpl.
    by rewrite <- !app_assoc.
Qed.

(** *** Nothing but [finally] touches the handle *)

Lemma quiet_ret {A} (a : A) : SigMFArchiveReader.quiet (mret a).
Proof. intros fr. exists []. rewrite app_nil_r. split; [by destruct fr|]. apply not_elem_of_nil. Qed.

Lemma quiet_raise {A} e : SigMFArchiveReader.quiet (raise (A:=A) e).
Proof. intros fr. exists []. rewrite app_nil_r. split; [by destruct fr|]. apply not_elem_of_nil. Qed.

Lemma quiet_emit e : e ≠ EvClose → SigMFArchiveReader.quiet (emit e).
Proof.
  intros He fr. exists [e]. split; [done|].
  rewrite list_elem_of_singleton. congruence.
Qed.

Lemma quiet_emit_all es : EvClose ∉ es → SigMFArchiveReader.quiet (emit_all es).
Proof. intros He fr. by exists es. Qed.

Lemma quiet_bind {A B} (c : M A) (k : A → M B) :
  SigMFArchiveReader.quiet c → (∀ a, SigMFArchiveReader.quiet (k a)) →
  SigMFArchiveReader.quiet (c ≫= k).
Proof.
  intros Hc Hk fr. unfold mbind, M_bind.
  destruct (Hc fr) as (evs & E & Hevs).
  destruct (c fr) as [[e|a] fr1]; simpl in E; subst fr1.
  - by exists evs.
  - destruct (Hk a (Frame (tar_obj fr) (log fr ++ evs))) as (evs' & E' & Hevs').
    exists (evs ++ evs'). rewrite E'. simpl. rewrite app_assoc.
    split; [done|]. rewrite elem_of_app. tauto.
Qed.

Lemma quiet_call {A} (o : option A) : SigMFArchiveReader.quiet (call o).
Proof. destruct o; [apply quiet_ret | apply quiet_raise]. Qed.

Lemma quiet_attr {A} (o : option A) : SigMFArchiveReader.quiet (attr o).
Proof. destruct o; [apply quiet_ret | apply quiet_raise]. Qed.

Lemma quiet_get_tar_obj : SigMFArchiveReader.quiet get_tar_obj.
Proof.
  intros fr. exists []. rewrite app_nil_r. unfold get_tar_obj.
  split; [by destruct fr as [[?|] ?]|]. apply not_elem_of_nil.
Qed.

Lemma quiet_load_body fs r : SigMFArchiveReader.quiet (load_body fs r).
Proof.
  unfold SigMFArchiveReader.load_body.
  repeat first
    [ apply quiet_bind; [|intros ?]
    | apply quiet_attr | apply quiet_get_tar_obj | apply quiet_call
    | apply quiet_ret | apply quiet_raise | by apply quiet_emit
    | case_match ].
Qed.

Lemma quiet_for_recordings rs : ∀ fs, SigMFArchiveReader.quiet (for_recordings rs fs).
Proof.
  induction rs as [|r rs IH]; intros fs; simpl.
  - apply quiet_ret.
  - apply quiet_bind; [apply quiet_load_body | done].
Qed.

Lemma stdout_fold_no_close l : ∀ st,
  EvClose ∉ stdout st → EvClose ∉ stdout (fold_left loop_body l st).
Proof.
  induction l as [|x l IH]; intros st H; simpl; [done|].
  apply IH. unfold loop_body, print.
  repeat case_match; simpl; try done;
    rewrite elem_of_app, list_elem_of_singleton; by intros [?|?].
Qed.

Lemma quiet_parse : SigMFArchiveReader.quiet parse.
Proof.
  unfold SigMFArchiveReader.parse.
  apply quiet_bind; [apply quiet_get_tar_obj|intros tar].
  apply quiet_bind; [by apply quiet_emit|intros _].
  apply quiet_bind; [apply quiet_call|intros members].
  apply quiet_bind.
  { apply quiet_emit_all, stdout_fold_no_close, not_elem_of_nil. }
  intros _. apply quiet_bind.
  { case_match; [apply quiet_for_recordings | apply quiet_ret]. }
  intros fs. apply quiet_bind; [|intros _; apply quiet_ret].
  case_match; [by apply quiet_emit | apply quiet_ret].
Qed.

(** *** Opening the container *)

Lemma open_tar_ok tar :
  opens tar →
  open_tar (Frame None []) = (inr tt, Frame (Some tar) [open_event]).
Proof.
  unfold SigMFArchiveReader.opens, SigMFArchiveReader.open_tar,
    SigMFArchiveReader.open_event.
  destruct path as [p|].
  - intros [-> Ht]. simpl. unfold mbind, M_bind, emit. simpl. by rewrite Ht.
  - intros (b & -> & Ht). unfold mbind, M_bind, emit. simpl. by rewrite Ht.
Qed.

Lemma open_tar_refused :
  (∀ tar, ¬ opens tar) →
  ∃ e lg, open_tar (Frame None []) = (inl e, Frame None lg) ∧ EvClose ∉ lg.
Proof.
  unfold SigMFArchiveReader.opens, SigMFArchiveReader.open_tar.
  intros H. destruct path as [p|].
  - destruct (endswith p SIGMF_ARCHIVE_EXT) eqn:E; simpl.
    + destruct (tarfile_open_path p) as [tar|] eqn:Ht.
      { by destruct (H tar). }
      unfold mbind, M_bind, emit. simpl. rewrite ?Ht. simpl.
      eexists _, _. split; [done|].
      rewrite list_elem_of_singleton. congruence.
    + eexists _, _. split; [done|]. apply not_elem_of_nil.
  - destruct archive_buffer as [b|].
    + destruct (tarfile_open_buffer b) as [tar|] eqn:Ht.
      { destruct (H tar). by exists b. }
      unfold mbind, M_bind, emit. simpl. rewrite ?Ht. simpl.
      eexists _, _. split; [done|].
      rewrite list_elem_of_singleton. congruence.
    + eexists _, _. split; [done|]. apply not_elem_of_nil.
Qed.

Lemma opens_or_not : (∃ tar, opens tar) ∨ (∀ tar, ¬ opens tar).
Proof.
  unfold SigMFArchiveReader.opens. destruct path as [p|].
  - destruct (endswith p SIGMF_ARCHIVE_EXT); [|right; by intros ? [? _]].
    destruct (tarfile_open_path p) as [tar|]; [left; by exists tar|].
    right. by intros ? [_ ?].
  - destruct archive_buffer as [b|]; [|right; by intros ? (? & ? & _)].
    destruct (tarfile_open_buffer b) as [tar|] eqn:Ht;
      [left; exists tar; by exists b|].
    right. intros ? (? & [= <-] & ?). congruence.
Qed.

Lemma opens_inj tar tar' : opens tar → opens tar' → tar = tar'.
Proof.
  unfold SigMFArchiveReader.opens. destruct path.
  - intros [_ ?] [_ ?]. congruence.
  - intros (? & ? & ?) (? & ? & ?). congruence.
Qed.

(** *** The frame the [try] block hands to [finally] *)

Lemma try_block_opened tar :
  opens tar →
  ∃ res evs,
    try_block (Frame None []) = (res, Frame (Some tar) (open_event :: evs))
    ∧ EvClose ∉ open_event :: evs.
Proof.
  intros Ho. unfold SigMFArchiveReader.try_block.
  rewrite (bind_inr _ _ _ _ _ (open_tar_ok tar Ho)).
  destruct (quiet_parse (Frame (Some tar) [open_event])) as (evs & E & He).
  destruct (parse _) as [res fr]. simpl in E. subst fr.
  exists res, evs. split; [done|].
  rewrite elem_of_cons. intros [?|?]; [|done].
  unfold SigMFArchiveReader.open_event in *. by destruct path.
Qed.

Lemma try_block_refused :
  (∀ tar, ¬ opens tar) →
  ∃ e lg, try_block (Frame None []) = (inl e, Frame None lg) ∧ EvClose ∉ lg.
Proof.
  intros H. destruct (open_tar_refused H) as (e & lg & E & Hlg).
  exists e, lg. split; [|done].
  unfold SigMFArchiveReader.try_block. by rewrite (bind_inl _ _ _ _ _ E).
Qed.

(** *** What [finally] makes of the outcome of the [try] block *)

Lemma init_of_try_block res o lg :
  try_block (Frame None []) = (res, Frame o lg) →
  init = (match res with
          | inl e => inl e
          | inr fs => inr (SigMFArchiveReader.mk path fs)
          end,
          if truthy o then lg ++ [EvClose] else lg).
Proof.
  intros E.
  unfold SigMFArchiveReader.init, try_finally, SigMFArchiveReader.finally_block.
  rewrite E. cbn [tar_obj]. by destruct o, res.
Qed.

(** *** Recordings and their Metadata entries *)

Lemma grouping_omap members :
  omap ArchiveRecording.metadata (grouping members) = metadata_entries members.
Proof.
  pose proof (grouping_metadata members) as H.
  revert H. generalize (metadata_entries members). generalize (grouping members).
  induction l as [|r l IH]; intros [|m l'] H; simplify_eq/=; try done.
  rewrite H. f_equal. by apply IH.
Qed.

Lemma grouping_lookup_metadata members k r :
  grouping members !! k = Some r →
  ∃ m, ArchiveRecording.metadata r = Some m
       ∧ metadata_entries members !! k = Some m.
Proof.
  intros Hk.
  assert ((ArchiveRecording.metadata <$> grouping members) !! k
          = Some (ArchiveRecording.metadata r)) as H
    by by rewrite list_lookup_fmap, Hk.
  rewrite grouping_metadata, list_lookup_fmap in H.
  destruct (metadata_entries members !! k) as [m|]; simplify_eq/=.
  by exists m.
Qed.

Lemma loads_all tar rs :
  (∀ r, r ∈ rs →
     ∃ m json, ArchiveRecording.metadata r = Some m ∧ sound tar m json) →
  ∃ files, Forall2 (loads tar) rs files.
Proof.
  induction rs as [|r rs IH]; intros H.
  - by exists [].
  - destruct (H r) as (m & json & Hm & Hs); [by left|].
    destruct IH as [files Hfiles]; [intros r' Hr'; apply H; by right|].
    exists (built r m json :: files). constructor; [|done].
    by exists m, json.
Qed.

Lemma healthy_loads tar members :
  healthy tar members → ∃ files, Forall2 (loads tar) (grouping members) files.
Proof.
  intros [_ H]. apply loads_all. intros r Hr.
  apply list_elem_of_lookup in Hr as [k Hk].
  destruct (grouping_lookup_metadata members k r Hk) as (m & Hm & Hk').
  destruct (H m) as [json Hs]; [by eapply list_elem_of_lookup_2|].
  by exists m, json.
Qed.

(** *** The parse pass on an opened container *)

Lemma parse_ok tar members files lg :
  getmembers tar = Some members →
  Forall2 (loads tar) (grouping members) files →
  parse (Frame (Some tar) lg)
  = (inr files,
     Frame (Some tar)
       (lg ++ [EvGetMembers] ++ stdout (scan_members members)
           ++ (EvExtract <$> metadata_entries members)
           ++ (if existsb (λ r, truthy (ArchiveRecording.data r)) (grouping members)
               then [] else [no_dataset_warning]))).
Proof.
  intros Hg Hl. unfold SigMFArchiveReader.parse.
  unfold mbind at 1, M_bind at 1, get_tar_obj. cbn [tar_obj].
  unfold mbind at 1, M_bind at 1, emit at 1. cbn [tar_obj log].
  rewrite Hg. cbn [call]. unfold mbind at 1, M_bind at 1, mret at 1, M_ret at 1.
  unfold mbind at 1, M_bind at 1, emit_all at 1. cbn [tar_obj log].
  fold (grouping members).
  assert (∀ lg', (if bool_decide (grouping members ≠ [])
           then for_recordings (grouping members) []
           else mret []) (Frame (Some tar) lg')
          = (inr files, Frame (Some tar)
               (lg' ++ (EvExtract <$> metadata_entries members)))) as Hfor.
  { intros lg'. rewrite <- grouping_omap. case_bool_decide as Hne.
    - by rewrite (for_recordings_ok tar _ files [] lg' Hl).
    - rewrite Hne in *.
      apply Forall2_nil_inv_l in Hl as ->. simpl. by rewrite app_nil_r. }
  rewrite (bind_inr _ _ _ _ _ (Hfor _)).
  unfold SigMFArchiveReader.no_dataset_warning.
  destruct (existsb _ _); simpl; unfold mbind, M_bind, emit, mret, M_ret; simpl;
    by rewrite <- ?app_assoc, ?app_nil_r.
Qed.

Lemma omap_of_fmap_Some {A B} (g : A → option B) (l : list A) : ∀ l',
  g <$> l = Some <$> l' → omap g l = l'.
Proof.
  induction l as [|a l IH]; intros [|b l'] H; simplify_eq/=; try done.
  rewrite H. f_equal. by apply IH.
Qed.

Lemma parse_invalid tar members k m json lg :
  getmembers tar = Some members →
  metadata_entries members !! k = Some m →
  (∀ m', m' ∈ take k (metadata_entries members) → ∃ j, sound tar m' j) →
  extractfile_read tar m = Some json →
  validate (SigMFFile_new (SigMFArchiveReader.sigmffile_name m) json) = false →
  parse (Frame (Some tar) lg)
  = (inl ValidationError,
     Frame (Some tar)
       (lg ++ [EvGetMembers] ++ stdout (scan_members members)
           ++ (EvExtract <$> take (S k) (metadata_entries members)))).
Proof.
  intros Hg Hk Hsound Hread Hval.
  assert (∃ r, grouping members !! k = Some r) as [r Hr].
  { apply lookup_lt_is_Some. rewrite grouping_length.
    by eapply lookup_lt_Some. }
  destruct (grouping_lookup_metadata members k r Hr) as (m' & Hm & Hk').
  assert (m' = m) as -> by congruence.
  assert (ArchiveRecording.metadata <$> take k (grouping members)
          = Some <$> take k (metadata_entries members)) as Htake
    by by rewrite !fmap_take, grouping_metadata.
  destruct (loads_all tar (take k (grouping members))) as [fs1 Hfs1].
  { intros r' Hr'. apply list_elem_of_lookup in Hr' as [i Hi].
    assert ((ArchiveRecording.metadata <$> take k (grouping members)) !! i
            = Some (ArchiveRecording.metadata r')) as H
      by by rewrite list_lookup_fmap, Hi.
    rewrite Htake, list_lookup_fmap in H.
    destruct (take k (metadata_entries members) !! i) as [mi|] eqn:Hmi;
      simplify_eq/=.
    destruct (Hsound mi) as [j Hj]; [by eapply list_elem_of_lookup_2|].
    by exists mi, j. }
  unfold SigMFArchiveReader.parse.
  unfold mbind at 1, M_bind at 1, get_tar_obj. cbn [tar_obj].
  unfold mbind at 1, M_bind at 1, emit at 1. cbn [tar_obj log].
  rewrite Hg. cbn [call]. unfold mbind at 1, M_bind at 1, mret at 1, M_ret at 1.
  unfold mbind at 1, M_bind at 1, emit_all at 1. cbn [tar_obj log].
  fold (grouping members).
  rewrite bool_decide_true by (intros E; by rewrite E in Hr).
  erewrite bind_inl; last first.
  { rewrite <- (take_drop_middle _ _ _ Hr).
    by apply (for_recordings_invalid tar _ fs1 r _ m json). }
  rewrite (omap_of_fmap_Some _ _ _ Htake), (take_S_r _ _ _ Hk), fmap_app.
  by rewrite <- !app_assoc.
Qed.

Lemma stdout_fold_no_warning l : ∀ st,
  Forall (λ e, is_warning e = false) (stdout st) →
  Forall (λ e, is_warning e = false) (stdout (fold_left loop_body l st)).
Proof.
  induction l as [|x l IH]; intros st H; simpl; [done|].
  apply IH. unfold loop_body, print.
  repeat case_match; simpl; try done; apply Forall_app; by repeat constructor.
Qed.

Lemma init_ok tar members files :
  opens tar →
  getmembers tar = Some members →
  Forall2 (loads tar) (grouping members) files →
  init
  = (inr (SigMFArchiveReader.mk path files),
     [open_event; EvGetMembers] ++ stdout (scan_members members)
       ++ (EvExtract <$> metadata_entries members)
       ++ (if existsb (λ r, truthy (ArchiveRecording.data r)) (grouping members)
           then [] else [no_dataset_warning])
       ++ [EvClose]).
Proof.
  intros Ho Hg Hl.
  erewrite init_of_try_block; last first.
  { unfold SigMFArchiveReader.try_block.
    rewrite (bind_inr _ _ _ _ _ (open_tar_ok tar Ho)).
    by apply parse_ok. }
  simpl. by rewrite <- !app_assoc.
Qed.

End ReaderFacts.

(* ===================================================================== *)
(** ** Properties of the reader *)
(* ===================================================================== *)

Section ReaderProperties.

Context {exts : ArchiveExts} {world : Collaborators}.

Variable path : option str.
Variable skip_checksum : bool.
Variable map_readonly : bool.
Variable archive_buffer : option bytes.

Local Abbreviation init :=
  (SigMFArchiveReader.init path skip_checksum map_readonly archive_buffer).
Local Abbreviation built :=
  (SigMFArchiveReader.built path skip_checksum map_readonly archive_buffer).
Local Abbreviation loads :=
  (SigMFArchiveReader.loads path skip_checksum map_readonly archive_buffer).
Local Abbreviation opens := (SigMFArchiveReader.opens path archive_buffer).
Local Abbreviation open_event := (SigMFArchiveReader.open_event path).

Lemma loads_metadata tar rs : ∀ files ms,
  Forall2 (loads tar) rs files →
  ArchiveRecording.metadata <$> rs = Some <$> ms →
  Forall2 (λ f m,
      sf_name f = SigMFArchiveReader.sigmffile_name m
      ∧ extractfile_read tar m = Some (sf_metadata f))
    files ms.
Proof.
  induction rs as [|r rs IH]; intros files ms Hl Hm.
  - apply Forall2_nil_inv_l in Hl as ->. destruct ms; [constructor|done].
  - apply Forall2_cons_inv_l in Hl as (f & fs & (m & json & Hr & [Hread _] & ->) & Hl & ->).
    destruct ms as [|m' ms]; [done|]. simpl in Hm.
    injection Hm as Hm1 Hm. rewrite Hr in Hm1. injection Hm1 as <-.
    constructor; [|by apply IH].
    unfold SigMFArchiveReader.built. by destruct (ArchiveRecording.data r).
Qed.

Lemma built_without_data r m json :
  ArchiveRecording.data r = None → sf_data_file (built r m json) = None.
Proof. unfold SigMFArchiveReader.built. by intros ->. Qed.

Lemma filter_warning_quiet lg :
  Forall (λ e, is_warning e = false) lg →
  filter (λ e, is_warning e = true) lg = [].
Proof.
  induction 1 as [|e lg He _ IH]; [done|].
  rewrite filter_cons, decide_False; [done|]. by rewrite He.
Qed.

(** The outcome on a container that opens and is healthy. *)
Lemma init_healthy tar members :
  opens tar →
  SigMFArchiveReader.healthy tar members →
  ∃ files,
    Forall2 (loads tar) (grouping members) files
    ∧ init
      = (inr (SigMFArchiveReader.mk path files),
         [open_event; EvGetMembers] ++ stdout (scan_members members)
           ++ (EvExtract <$> metadata_entries members)
           ++ (if existsb (λ r, truthy (ArchiveRecording.data r)) (grouping members)
               then [] else [SigMFArchiveReader.no_dataset_warning])
           ++ [EvClose]).
Proof.
  intros Ho Hh.
  destruct (healthy_loads path skip_checksum map_readonly archive_buffer
              tar members Hh) as [files Hl].
  destruct Hh as [Hg _]. exists files. split; [done|].
  by apply (init_ok _ _ _ _ tar members files).
Qed.

(** The recording opened by the Metadata entry [m] of a healthy
    container, cut as in [grouping_shape]. *)
Lemma init_group tar pre m seg rest :
  opens tar →
  SigMFArchiveReader.healthy tar (pre ++ m :: seg ++ rest) →
  is_metadata m = true →
  has_metadata seg = false →
  group_end rest →
  ∃ files json,
    init
    = (inr (SigMFArchiveReader.mk path files),
       [open_event; EvGetMembers]
         ++ stdout (scan_members (pre ++ m :: seg ++ rest))
         ++ (EvExtract <$> metadata_entries (pre ++ m :: seg ++ rest))
         ++ (if existsb (λ r, truthy (ArchiveRecording.data r))
                  (grouping (pre ++ m :: seg ++ rest))
             then [] else [SigMFArchiveReader.no_dataset_warning])
         ++ [EvClose])
    ∧ grouping (pre ++ m :: seg ++ rest) !! length (metadata_entries pre)
      = Some (ArchiveRecording.mk (Some m)
                (match last_dataset seg with
                 | Some d => Some d
                 | None => if has_metadata pre then None else last_dataset pre
                 end))
    ∧ files !! length (metadata_entries pre)
      = Some (built
                (ArchiveRecording.mk (Some m)
                   (match last_dataset seg with
                    | Some d => Some d
                    | None => if has_metadata pre then None else last_dataset pre
                    end))
                m json).
Proof.
  intros Ho Hh Hm Hseg Hend.
  destruct (init_healthy tar _ Ho Hh) as (files & Hl & E).
  assert (grouping (pre ++ m :: seg ++ rest) !! length (metadata_entries pre)
          = Some (ArchiveRecording.mk (Some m)
                    (match last_dataset seg with
                     | Some d => Some d
                     | None => if has_metadata pre then None else last_dataset pre
                     end))) as Hk.
  { rewrite (grouping_shape pre m seg rest Hm Hseg Hend).
    assert (length (if has_metadata pre then grouping pre else [])
            = length (metadata_entries pre)) as Hlen.
    { destruct (has_metadata pre) eqn:Hp.
      - by rewrite grouping_length.
      - apply has_metadata_entries in Hp. by rewrite Hp. }
    rewrite lookup_app_r by lia. by rewrite Hlen, Nat.sub_diag. }
  destruct (Forall2_lookup_l _ _ _ _ _ Hl Hk) as (f & Hf & m' & json & Hm' & _ & ->).
  simpl in Hm'. injection Hm' as <-.
  by exists files, json.
Qed.

(** C1. One recording per metadata entry, in the order of the metadata
    entries: on a container that opens and whose metadata entries are
    sound, the reader returns as many [SigMFFile]s as the container has
    metadata entries, and the i-th one is named after and built from the
    i-th metadata entry.  This holds for every such container, the ones
    satisfying the construction invariant among them. *)
Theorem C1_one_recording_per_metadata_entry tar members :
  opens tar →
  SigMFArchiveReader.healthy tar members →
  ∃ self lg,
    init = (inr self, lg)
    ∧ SigMFArchiveReader.len self = length (metadata_entries members)
    ∧ Forall2 (λ f m,
          sf_name f = SigMFArchiveReader.sigmffile_name m
          ∧ extractfile_read tar m = Some (sf_metadata f))
        (SigMFArchiveReader.sigmffiles self) (metadata_entries members).
Proof.
  intros Ho Hh.
  destruct (init_healthy tar members Ho Hh) as (files & Hl & E).
  eexists _, _. split; [exact E|].
  pose proof (loads_metadata tar _ files _ Hl (grouping_metadata members)) as HF.
  split; [|done]. unfold SigMFArchiveReader.len. simpl.
  by apply Forall2_length in HF.
Qed.

(** C2, as the code has it.  The name of a recording is
    [os.path.dirname] of the metadata entry's path without its extension:
    the directory part of the path.  A metadata entry at the top level of
    the container gives the empty name; a path [dir/file] gives [dir]. *)
Theorem C2_name_is_directory_of_metadata_path tar members :
  opens tar →
  SigMFArchiveReader.healthy tar members →
  ∃ self lg,
    init = (inr self, lg)
    ∧ Forall2 (λ f m,
          sf_name f = dirname (fst (splitext (TarInfo.name m)))
          ∧ (sep ∉ TarInfo.name m → sf_name f = [])
          ∧ (∀ dir file x,
               TarInfo.name m = dir ++ sep :: file →
               sep ∉ file → last dir = Some x → x ≠ sep →
               sf_name f = dir))
        (SigMFArchiveReader.sigmffiles self) (metadata_entries members).
Proof.
  intros Ho Hh.
  destruct (init_healthy tar members Ho Hh) as (files & Hl & E).
  eexists _, _. split; [exact E|]. simpl.
  pose proof (loads_metadata tar _ files _ Hl (grouping_metadata members)) as HF.
  eapply Forall2_impl; [exact HF|].
  intros f m [Hn _]. unfold SigMFArchiveReader.sigmffile_name in Hn.
  split; [done|]. rewrite Hn. split.
  - apply name_without_directory.
  - intros dir file x -> Hf Hl' Hx. by apply (name_is_directory dir file x).
Qed.

Lemma built_with_data r m json d :
  ArchiveRecording.data r = Some d →
  ∃ df, sf_data_file (built r m json) = Some df
        ∧ df_offset df = TarInfo.offset_data d
        ∧ df_size_bytes df = TarInfo.size d.
Proof.
  unfold SigMFArchiveReader.built. intros ->. simpl. by eexists.
Qed.

(** C4, as the code has it.  Take the recording opened by the metadata
    entry [m]; [seg] holds the entries between [m] and the next metadata
    entry (or the end).  If [m] is immediately followed by a dataset entry,
    the recording has a dataset reference, with the offset and size of the
    last dataset entry of [seg] (the one right behind [m] when no other
    follows).  If [seg] has no dataset entry, the recording has no dataset
    reference, unless [m] is the first metadata entry and a dataset entry
    comes before it. *)
Theorem C4_dataset_reference_of_a_recording tar pre m seg rest :
  opens tar →
  SigMFArchiveReader.healthy tar (pre ++ m :: seg ++ rest) →
  is_metadata m = true →
  has_metadata seg = false →
  group_end rest →
  ∃ self lg f,
    init = (inr self, lg)
    ∧ SigMFArchiveReader.sigmffiles self !! length (metadata_entries pre) = Some f
    ∧ (∀ d seg',
         seg = d :: seg' → is_dataset d = true →
         ∃ d' df,
           last_dataset seg = Some d'
           ∧ sf_data_file f = Some df
           ∧ df_offset df = TarInfo.offset_data d'
           ∧ df_size_bytes df = TarInfo.size d'
           ∧ (last_dataset seg' = None → d' = d))
    ∧ (last_dataset seg = None →
       has_metadata pre = true ∨ last_dataset pre = None →
       sf_data_file f = None).
Proof.
  intros Ho Hh Hm Hseg Hend.
  destruct (init_group tar pre m seg rest Ho Hh Hm Hseg Hend)
    as (files & json & E & _ & Hk).
  eexists _, _, _. split; [exact E|]. split; [exact Hk|]. split.
  - intros d seg' -> Hd.
    assert (∃ d', last_dataset (d :: seg') = Some d'
                  ∧ (last_dataset seg' = None → d' = d)) as (d' & Hlast & Hsame).
    { unfold last_dataset. rewrite filter_cons, decide_True by done.
      rewrite last_cons. destruct (last _) as [d'|].
      - by exists d'.
      - by exists d. }
    rewrite Hlast.
    destruct (built_with_data (ArchiveRecording.mk (Some m) (Some d')) m json d')
      as (df & Hdf & Hoff & Hsize); [done|].
    by exists d', df.
  - intros -> Hpre. apply built_without_data. simpl.
    destruct (has_metadata pre); [done|]. by destruct Hpre.
Qed.

(** C10. A further dataset entry for a group that already has one takes
    its place: the loop overwrites the dataset slot, saves nothing and
    prints nothing.  The recording the reader returns for the group refers
    to the last dataset entry of the group, the call succeeds and the log
    holds no warning. *)
Theorem C10_last_dataset_entry_wins :
  (∀ st d0 d,
      ArchiveRecording.data (recording st) = Some d0 →
      is_dataset d = true →
      loop_body st d
      = Scan (ArchiveRecording.mk
                (ArchiveRecording.metadata (recording st)) (Some d))
             (recordings st) (stdout st))
  ∧ (∀ tar pre m seg rest d,
      opens tar →
      SigMFArchiveReader.healthy tar (pre ++ m :: seg ++ rest) →
      is_metadata m = true →
      has_metadata seg = false →
      group_end rest →
      last_dataset seg = Some d →
      ∃ self lg f df,
        init = (inr self, lg)
        ∧ SigMFArchiveReader.sigmffiles self !! length (metadata_entries pre)
          = Some f
        ∧ sf_data_file f = Some df
        ∧ df_offset df = TarInfo.offset_data d
        ∧ df_size_bytes df = TarInfo.size d
        ∧ filter (λ e, is_warning e = true) lg = []).
Proof.
  split.
  - intros st d0 d _ Hd. by rewrite loop_body_dataset.
  - intros tar pre m seg rest d Ho Hh Hm Hseg Hend Hlast.
    destruct (init_group tar pre m seg rest Ho Hh Hm Hseg Hend)
      as (files & json & E & Hg & Hk).
    rewrite Hlast in Hk, Hg.
    destruct (built_with_data (ArchiveRecording.mk (Some m) (Some d)) m json d)
      as (df & Hdf & Hoff & Hsize); [done|].
    eexists _, _, _, df. split; [exact E|]. split; [exact Hk|].
    repeat split; try done.
    assert (existsb (λ r, truthy (ArchiveRecording.data r))
              (grouping (pre ++ m :: seg ++ rest)) = true) as ->.
    { apply existsb_exists.
      exists (ArchiveRecording.mk (Some m) (Some d)). split; [|done].
      apply list_elem_of_In. by eapply list_elem_of_lookup_2. }
    rewrite !filter_app.
    rewrite (filter_warning_quiet (stdout _))
      by (apply stdout_fold_no_warning; constructor).
    rewrite (filter_warning_quiet (EvExtract <$> _))
      by (apply Forall_fmap, Forall_true; done).
    unfold SigMFArchiveReader.open_event. by destruct path.
Qed.

(** C6. A metadata entry that fails validation makes the whole call fail
    with the validation error (no reader object is returned), and the
    container is closed exactly once, as the last thing that happens.  On
    every exit path of a call that acquired a container the handle is
    closed exactly once, at the end; a call that acquired none closes
    nothing. *)
Theorem C6_validation_error_propagates_handle_closed_once :
  (∀ tar members k m json,
      opens tar →
      getmembers tar = Some members →
      metadata_entries members !! k = Some m →
      (∀ m', m' ∈ take k (metadata_entries members) →
             ∃ j, SigMFArchiveReader.sound tar m' j) →
      extractfile_read tar m = Some json →
      validate (SigMFFile_new (SigMFArchiveReader.sigmffile_name m) json) = false →
      ∃ lg, init = (inl ValidationError, lg ++ [EvClose]) ∧ EvClose ∉ lg)
  ∧ (∀ tar, opens tar →
      ∃ res lg, init = (res, lg ++ [EvClose]) ∧ EvClose ∉ lg)
  ∧ ((∀ tar, ¬ opens tar) →
      ∃ e lg, init = (inl e, lg) ∧ EvClose ∉ lg).
Proof.
  split; [|split].
  - intros tar members k m json Ho Hg Hk Hsound Hread Hval.
    destruct (try_block_opened path skip_checksum map_readonly archive_buffer
                tar Ho) as (res & evs & E & Hevs).
    pose proof E as E'. unfold SigMFArchiveReader.try_block in E'.
    rewrite (bind_inr _ _ _ _ _ (open_tar_ok path archive_buffer tar Ho)) in E'.
    rewrite (parse_invalid path skip_checksum map_readonly archive_buffer
               tar members k m json _ Hg Hk Hsound Hread Hval) in E'.
    injection E' as <- _.
    exists (open_event :: evs). split; [|done].
    by rewrite (init_of_try_block _ _ _ _ _ _ _ E).
  - intros tar Ho.
    destruct (try_block_opened path skip_checksum map_readonly archive_buffer
                tar Ho) as (res & evs & E & Hevs).
    eexists _, (open_event :: evs). split; [|done].
    by rewrite (init_of_try_block _ _ _ _ _ _ _ E).
  - intros Hno.
    destruct (try_block_refused path skip_checksum map_readonly archive_buffer
                Hno) as (e & lg & E & Hlg).
    exists e, lg. split; [|done].
    by rewrite (init_of_try_block _ _ _ _ _ _ _ E).
Qed.

End ReaderProperties.

Section SourceChecks.

Context {exts : ArchiveExts} {world : Collaborators}.

Variable skip_checksum : bool.
Variable map_readonly : bool.

(** C7. With neither a path nor a buffer the call raises [ValueError] at
    once: the log is empty, so nothing was opened, listed, read or
    closed. *)
Theorem C7_no_source_raises_before_any_io :
  SigMFArchiveReader.init None skip_checksum map_readonly None
  = (inl (ValueError
      (lit "In sigmf.archivereader.__init__(), either `path` or `archive_buffer` must be not None")),
     []).
Proof. reflexivity. Qed.

(** C8. A path that does not end in the archive extension makes the call
    raise [SigMFFileError] with an empty log: the container was not opened
    and no entry was read.  A call on a buffer alone goes straight to
    [tarfile.open] on the buffer, and its outcome is the same whatever the
    archive extension is. *)
Theorem C8_extension_checked_for_paths_only :
  (∀ p archive_buffer,
      endswith p SIGMF_ARCHIVE_EXT = false →
      SigMFArchiveReader.init (Some p) skip_checksum map_readonly archive_buffer
      = (inl (SigMFFileError (lit "archive extension != " ++ SIGMF_ARCHIVE_EXT)),
         []))
  ∧ (∀ b,
      (∃ res lg,
          SigMFArchiveReader.init None skip_checksum map_readonly (Some b)
          = (res, EvOpenBuffer :: lg))
      ∧ ∀ archive_ext,
          SigMFArchiveReader.init (exts:=with_archive_ext exts archive_ext)
            None skip_checksum map_readonly (Some b)
          = SigMFArchiveReader.init None skip_checksum map_readonly (Some b)).
Proof.
  split.
  - intros p archive_buffer E.
    unfold SigMFArchiveReader.init, try_finally, SigMFArchiveReader.try_block,
      SigMFArchiveReader.open_tar.
    rewrite E. reflexivity.
  - intros b. split; [|reflexivity].
    destruct (tarfile_open_buffer b) as [tar|] eqn:Ht.
    + assert (SigMFArchiveReader.opens None (Some b) tar) as Ho by by exists b.
      destruct (try_block_opened None skip_checksum map_readonly (Some b)
                  tar Ho) as (res & evs & E & _).
      rewrite (init_of_try_block _ _ _ _ _ _ _ E). simpl. by eexists _, _.
    + unfold SigMFArchiveReader.init, try_finally, SigMFArchiveReader.try_block,
        SigMFArchiveReader.open_tar, mbind, M_bind. simpl. rewrite Ht. simpl.
      by eexists _, _.
Qed.

End SourceChecks.

(* ===================================================================== *)
(** ** The loop on references *)
(* ===================================================================== *)

Section RefsFacts.

Context {exts : ArchiveExts}.

Implicit Types (st : Refs.state) (h : list ArchiveRecording.t).
Implicit Types (l : Refs.loc) (ls : list Refs.loc) (memb : TarInfo.t).

Lemma deref_alter_eq h l f :
  l < length h → Refs.deref (alter f l h) l = f (Refs.deref h l).
Proof. apply list_lookup_total_alter_eq. Qed.

Lemma deref_fmap_alter h l f ls :
  l ∉ ls → Refs.deref (alter f l h) <$> ls = Refs.deref h <$> ls.
Proof.
  intros Hl. apply list_fmap_ext. intros i l' Hi.
  apply list_lookup_total_alter_ne. intros ->.
  apply Hl. by eapply list_elem_of_lookup_2.
Qed.

Lemma deref_fmap_app h h' ls :
  Forall (λ l, l < length h) ls →
  Refs.deref (h ++ h') <$> ls = Refs.deref h <$> ls.
Proof.
  intros Hl. apply list_fmap_ext. intros i l' Hi.
  apply lookup_total_app_l. rewrite Forall_forall in Hl.
  apply Hl. by eapply list_elem_of_lookup_2.
Qed.

Lemma wf_init : Refs.wf Refs.scan_init.
Proof.
  unfold Refs.wf, Refs.scan_init. simpl.
  split; [lia|]. split; [constructor | apply not_elem_of_nil].
Qed.

(** The invariant of the loop. *)
Lemma wf_loop_body st memb : Refs.wf st → Refs.wf (Refs.loop_body st memb).
Proof.
  intros (Hr & Hrs & Hnot). unfold Refs.loop_body, Refs.alloc, Refs.print, Refs.wf.
  repeat case_match; simplify_eq/=; rewrite ?length_alter, ?length_app; simpl;
    try done.
  split; [lia|]. split.
  - apply Forall_app. split; [|apply Forall_singleton; lia].
    eapply Forall_impl; [exact Hrs|]. simpl. lia.
  - rewrite elem_of_app, list_elem_of_singleton. intros [Hin|E]; [|lia].
    rewrite Forall_forall in Hrs. specialize (Hrs _ Hin). lia.
Qed.

Lemma wf_fold members : ∀ st,
  Refs.wf st → Refs.wf (fold_left Refs.loop_body members st).
Proof.
  induction members as [|x members IH]; intros st H; simpl; [done|].
  by apply IH, wf_loop_body.
Qed.

(** One entry: the objects already saved keep their attributes, and the
    list of saved references only grows at its end. *)
Lemma loop_body_saved st memb l :
  Refs.wf st → l ∈ Refs.recordings st →
  Refs.heap (Refs.loop_body st memb) !! l = Refs.heap st !! l.
Proof.
  intros (Hr & Hrs & Hnot) Hl.
  assert (l < length (Refs.heap st)) as Hlt
    by (rewrite Forall_forall in Hrs; by apply Hrs).
  assert (Refs.recording st ≠ l) as Hne by (intros E; by rewrite E in Hnot).
  unfold Refs.loop_body, Refs.alloc, Refs.print.
  repeat case_match; simplify_eq/=; try done;
    rewrite ?list_lookup_alter_ne by lia; try done.
  by rewrite lookup_app_l.
Qed.

Lemma loop_body_prefix st memb :
  Refs.recordings st `prefix_of` Refs.recordings (Refs.loop_body st memb).
Proof.
  unfold Refs.loop_body, Refs.alloc, Refs.print.
  repeat case_match; simplify_eq/=; try done; by apply prefix_app_r.
Qed.

Lemma fold_saved members : ∀ st l,
  Refs.wf st → l ∈ Refs.recordings st →
  Refs.heap (fold_left Refs.loop_body members st) !! l = Refs.heap st !! l
  ∧ Refs.recordings st
    `prefix_of` Refs.recordings (fold_left Refs.loop_body members st).
Proof.
  induction members as [|x members IH]; intros st l Hwf Hl; simpl; [done|].
  pose proof (loop_body_prefix st x) as Hp.
  destruct (IH (Refs.loop_body st x) l) as [Hh Hq].
  - by apply wf_loop_body.
  - destruct Hp as [k ->]. rewrite elem_of_app. by left.
  - split.
    + rewrite Hh. by apply loop_body_saved.
    + by etrans.
Qed.

(** The loop on references computes what the loop on values computes. *)
Lemma loop_body_refines st memb :
  Refs.wf st →
  Refs.abstraction (Refs.loop_body st memb)
  = loop_body (Refs.abstraction st) memb.
Proof.
  intros (Hr & Hrs & Hnot).
  unfold Refs.loop_body, Refs.alloc, loop_body, Refs.abstraction, Refs.print, print.
  simpl. repeat case_match; simplify_eq/=; try done.
  - rewrite deref_alter_eq by (rewrite length_app; simpl; lia).
    rewrite deref_fmap_alter, fmap_app, deref_fmap_app; try done.
    + simpl. unfold Refs.deref.
      rewrite list_lookup_total_middle by done.
      by rewrite lookup_total_app_l.
    + rewrite elem_of_app, list_elem_of_singleton. intros [Hin|E]; [|lia].
      rewrite Forall_forall in Hrs. specialize (Hrs _ Hin). lia.
  - by rewrite deref_alter_eq, deref_fmap_alter.
  - by rewrite deref_alter_eq, deref_fmap_alter.
Qed.

Lemma fold_refines members : ∀ st,
  Refs.wf st →
  Refs.abstraction (fold_left Refs.loop_body members st)
  = fold_left loop_body members (Refs.abstraction st).
Proof.
  induction members as [|x members IH]; intros st H; simpl; [done|].
  rewrite IH by by apply wf_loop_body. by rewrite loop_body_refines.
Qed.

Lemma scan_members_refines members :
  Refs.abstraction (Refs.scan_members members) = scan_members members.
Proof. unfold Refs.scan_members. by rewrite fold_refines by apply wf_init. Qed.

Lemma save_final_refines members :
  recordings (Refs.abstraction (Refs.save_final (Refs.scan_members members)))
  = grouping members.
Proof.
  unfold grouping, save_final. rewrite <- scan_members_refines.
  unfold Refs.save_final, Refs.abstraction. simpl.
  case_truthy; simpl; [|done]. by rewrite fmap_app.
Qed.

(** C5. Whatever entries come later (a dataset entry met while no
    metadata is assigned, a second dataset entry for a group, or anything
    else), the recordings already saved keep their metadata and dataset
    attributes: the objects the saved references point to are the same
    after the later entries and after the final save, and the references
    saved so far stay in place at the front of [recordings]. *)
Theorem C5_saved_recordings_are_never_modified pre post l :
  l ∈ Refs.recordings (Refs.scan_members pre) →
  Refs.heap (Refs.scan_members (pre ++ post)) !! l
  = Refs.heap (Refs.scan_members pre) !! l
  ∧ Refs.heap (Refs.save_final (Refs.scan_members (pre ++ post))) !! l
    = Refs.heap (Refs.scan_members pre) !! l
  ∧ Refs.recordings (Refs.scan_members pre)
    `prefix_of` Refs.recordings
                  (Refs.save_final (Refs.scan_members (pre ++ post))).
Proof.
  intros Hl.
  assert (Refs.scan_members (pre ++ post)
          = fold_left Refs.loop_body post (Refs.scan_members pre)) as ->
    by (unfold Refs.scan_members; by rewrite fold_left_app).
  destruct (fold_saved post (Refs.scan_members pre) l) as [Hh Hp];
    [apply wf_fold, wf_init | done |].
  unfold Refs.save_final. case_truthy; simpl; repeat split; try done.
  by apply prefix_app_r.
Qed.

End RefsFacts.

(* ===================================================================== *)
(** ** The sample containers, run *)
(* ===================================================================== *)

Section Scenarios.

#[local] Existing Instance scenario_exts.

Lemma scenario_opens members valid :
  SigMFArchiveReader.opens (world:=sample_world members valid)
    sample_path None (sample_tar members).
Proof. split; reflexivity. Qed.

Lemma scenario_healthy members :
  SigMFArchiveReader.healthy (world:=scenario_world members)
    (sample_tar members) members.
Proof.
  split; [reflexivity|]. intros m _. exists document. split; reflexivity.
Qed.

(** The spec's first scenario: two recordings come out, in order, each
    with the size of its dataset entry; both are named by the (empty)
    directory part of their metadata path. *)
Example two_recordings_run :
  SigMFArchiveReader.init (world:=scenario_world two_recordings)
    sample_path false true None
  = (inr (SigMFArchiveReader.mk sample_path
       [set_data_file (SigMFFile_new [] document) sample_path None false 1536 4096 true;
        set_data_file (SigMFFile_new [] document) sample_path None false 7168 2048 true]),
     [EvOpenPath (lit "scenario.sigmf"); EvGetMembers;
      EvExtract (regular "rec1.meta" 512 96);
      EvExtract (regular "rec2.meta" 6144 128);
      EvClose]).
Proof. vm_compute. reflexivity. Qed.

Example two_directories_names :
  sf_name <$> (match fst (SigMFArchiveReader.init
                            (world:=scenario_world two_directories)
                            sample_path false true None) with
               | inr self => SigMFArchiveReader.sigmffiles self
               | inl _ => []
               end)
  = [lit "rec1"; lit "rec2"].
Proof. vm_compute. reflexivity. Qed.

Lemma C1_witness :
  ∃ self lg,
    SigMFArchiveReader.init (world:=scenario_world two_recordings)
      sample_path false true None = (inr self, lg)
    ∧ SigMFArchiveReader.len self = length (metadata_entries two_recordings)
    ∧ Forall2 (λ f m,
          sf_name f = SigMFArchiveReader.sigmffile_name m
          ∧ extractfile_read (sample_tar two_recordings) m = Some (sf_metadata f))
        (SigMFArchiveReader.sigmffiles self) (metadata_entries two_recordings).
Proof.
  exact (C1_one_recording_per_metadata_entry
           (world:=scenario_world two_recordings)
           sample_path false true None (sample_tar two_recordings) two_recordings
           (scenario_opens two_recordings accept_all)
           (scenario_healthy two_recordings)).
Defined.

(** C2 fails as stated: in the spec's own scenario both recordings get the
    empty name, not [rec1] and [rec2]. *)
Lemma C2_counterexample :
  ∃ f1 f2 lg,
    SigMFArchiveReader.init (world:=scenario_world two_recordings)
      sample_path false true None
    = (inr (SigMFArchiveReader.mk sample_path [f1; f2]), lg)
    ∧ TarInfo.name <$> two_recordings
      = [lit "rec1.meta"; lit "rec1.data"; lit "rec2.meta"; lit "rec2.data"]
    ∧ sf_name f1 = [] ∧ sf_name f2 = []
    ∧ sf_name f1 ≠ lit "rec1" ∧ sf_name f2 ≠ lit "rec2".
Proof.
  eexists _, _, _. split; [exact two_recordings_run|].
  repeat split; done.
Qed.

Lemma C2_witness :
  ∃ self lg,
    SigMFArchiveReader.init (world:=scenario_world two_directories)
      sample_path false true None = (inr self, lg)
    ∧ Forall2 (λ f m,
          sf_name f = dirname (fst (splitext (TarInfo.name m)))
          ∧ (sep ∉ TarInfo.name m → sf_name f = [])
          ∧ (∀ dir file x,
               TarInfo.name m = dir ++ sep :: file →
               sep ∉ file → last dir = Some x → x ≠ sep →
               sf_name f = dir))
        (SigMFArchiveReader.sigmffiles self) (metadata_entries two_directories).
Proof.
  exact (C2_name_is_directory_of_metadata_path
           (world:=scenario_world two_directories)
           sample_path false true None (sample_tar two_directories) two_directories
           (scenario_opens two_directories accept_all)
           (scenario_healthy two_directories)).
Defined.



(** C4 fails as stated, in both halves.  A metadata entry followed at once
    by another metadata entry still yields a recording with a dataset
    reference when a dataset entry came before it; and the reference of a
    recording whose metadata entry is followed at once by a dataset entry
    is that of a later dataset entry of the same group when there is
    one. *)
Lemma C4_counterexample :
  (∃ f1 f2 lg df,
      SigMFArchiveReader.init (world:=scenario_world dataset_first_two_metadata)
        sample_path false true None
      = (inr (SigMFArchiveReader.mk sample_path [f1; f2]), lg)
      ∧ dataset_first_two_metadata !! 1 = Some (regular "rec1.meta" 2048 96)
      ∧ dataset_first_two_metadata !! 2 = Some (regular "rec2.meta" 3072 128)
      ∧ sf_data_file f1 = Some df
      ∧ df_offset df = 512%Z ∧ df_size_bytes df = 1024%Z)
  ∧ (∃ f1 lg df,
      SigMFArchiveReader.init (world:=scenario_world two_datasets)
        sample_path false true None
      = (inr (SigMFArchiveReader.mk sample_path [f1]), lg)
      ∧ two_datasets !! 0 = Some (regular "rec1.meta" 512 96)
      ∧ two_datasets !! 1 = Some (regular "rec1.data" 1536 4096)
      ∧ sf_data_file f1 = Some df
      ∧ df_offset df = 6144%Z ∧ df_size_bytes df = 2048%Z
      ∧ df_offset df ≠ 1536%Z ∧ df_size_bytes df ≠ 4096%Z).
Proof.
  split.
  - eexists _, _, _, _. split; [vm_compute; reflexivity|]. by repeat split.
  - eexists _, _, _. split; [vm_compute; reflexivity|]. by repeat split.
Qed.

Lemma C4_witness :
  ∃ self lg f,
    SigMFArchiveReader.init (world:=scenario_world two_recordings)
      sample_path false true None = (inr self, lg)
    ∧ SigMFArchiveReader.sigmffiles self !! 1 = Some f
    ∧ (∀ d seg',
         [regular "rec2.data" 7168 2048] = d :: seg' → is_dataset d = true →
         ∃ d' df,
           last_dataset [regular "rec2.data" 7168 2048] = Some d'
           ∧ sf_data_file f = Some df
           ∧ df_offset df = TarInfo.offset_data d'
           ∧ df_size_bytes df = TarInfo.size d'
           ∧ (last_dataset seg' = None → d' = d))
    ∧ (last_dataset [regular "rec2.data" 7168 2048] = None →
       has_metadata [regular "rec1.meta" 512 96; regular "rec1.data" 1536 4096] = true
       ∨ last_dataset [regular "rec1.meta" 512 96; regular "rec1.data" 1536 4096] = None →
       sf_data_file f = None).
Proof.
  exact (C4_dataset_reference_of_a_recording
           (world:=scenario_world two_recordings)
           sample_path false true None (sample_tar two_recordings)
           [regular "rec1.meta" 512 96; regular "rec1.data" 1536 4096]
           (regular "rec2.meta" 6144 128)
           [regular "rec2.data" 7168 2048] []
           (scenario_opens two_recordings accept_all)
           (scenario_healthy two_recordings)
           eq_refl eq_refl I).
Defined.

(** The first recording of [two_recordings] is saved when [rec2.meta]
    arrives; two further dataset entries leave it as it was. *)
Lemma C5_witness :
  Refs.heap (Refs.scan_members
               (take 3 two_recordings
                ++ [regular "rec2.data" 7168 2048; regular "extra.data" 9728 512])) !! 0
  = Refs.heap (Refs.scan_members (take 3 two_recordings)) !! 0
  ∧ Refs.heap (Refs.save_final (Refs.scan_members
               (take 3 two_recordings
                ++ [regular "rec2.data" 7168 2048; regular "extra.data" 9728 512]))) !! 0
    = Refs.heap (Refs.scan_members (take 3 two_recordings)) !! 0
  ∧ Refs.recordings (Refs.scan_members (take 3 two_recordings))
    `prefix_of` Refs.recordings
                  (Refs.save_final (Refs.scan_members
                     (take 3 two_recordings
                      ++ [regular "rec2.data" 7168 2048;
                          regular "extra.data" 9728 512]))).
Proof.
  apply (C5_saved_recordings_are_never_modified
           (take 3 two_recordings)
           [regular "rec2.data" 7168 2048; regular "extra.data" 9728 512] 0).
  vm_compute. left.
Defined.

Lemma C6_witness :
  ∃ lg,
    SigMFArchiveReader.init (world:=sample_world two_recordings reject_all)
      sample_path false true None
    = (inl ValidationError, lg ++ [EvClose])
    ∧ EvClose ∉ lg.
Proof.
  apply (proj1 (C6_validation_error_propagates_handle_closed_once
                  (world:=sample_world two_recordings reject_all)
                  sample_path false true None)
           (sample_tar two_recordings) two_recordings 0
           (regular "rec1.meta" 512 96) document).
  - apply scenario_opens.
  - reflexivity.
  - reflexivity.
  - intros m' Hm'. by apply elem_of_nil in Hm'.
  - reflexivity.
  - reflexivity.
Defined.

Lemma C8_witness :
  endswith (lit "scenario.tar") SIGMF_ARCHIVE_EXT = false
  ∧ SigMFArchiveReader.init (world:=scenario_world two_recordings)
      (Some (lit "scenario.tar")) false true None
    = (inl (SigMFFileError (lit "archive extension != " ++ SIGMF_ARCHIVE_EXT)), []).
Proof.
  split; [reflexivity|].
  apply (proj1 (C8_extension_checked_for_paths_only
                  (world:=scenario_world two_recordings) false true)
           (lit "scenario.tar") None).
  reflexivity.
Defined.

Lemma C10_witness :
  ∃ self lg f df,
    SigMFArchiveReader.init (world:=scenario_world two_datasets)
      sample_path false true None = (inr self, lg)
    ∧ SigMFArchiveReader.sigmffiles self !! 0 = Some f
    ∧ sf_data_file f = Some df
    ∧ df_offset df = 6144%Z
    ∧ df_size_bytes df = 2048%Z
    ∧ filter (λ e, is_warning e = true) lg = [].
Proof.
  exact (proj2 (C10_last_dataset_entry_wins
                  (world:=scenario_world two_datasets)
                  sample_path false true None)
           (sample_tar two_datasets) [] (regular "rec1.meta" 512 96)
           [regular "rec1.data" 1536 4096; regular "extra.data" 6144 2048] []
           (regular "extra.data" 6144 2048)
           (scenario_opens two_datasets accept_all)
           (scenario_healthy two_datasets)
           eq_refl eq_refl I eq_refl).
Defined.

End Scenarios.

(* ===================================================================== *)
(** ** More on the grouping loop *)
(* ===================================================================== *)

Section GroupingMore.

Context {exts : ArchiveExts}.

Implicit Types (st : scan) (x m d : TarInfo.t) (l members : list TarInfo.t).

Lemma loop_body_agree st st' x :
  recording st = recording st' →
  recordings st = recordings st' →
  recording (loop_body st x) = recording (loop_body st' x)
  ∧ recordings (loop_body st x) = recordings (loop_body st' x).
Proof.
  destruct st as [r rs o], st' as [r' rs' o']. simpl. intros -> ->.
  unfold loop_body, print. simpl. by repeat case_match.
Qed.

Lemma fold_loop_grouped l : ∀ st st',
  recording st = recording st' →
  recordings st = recordings st' →
  recording (fold_left loop_body l st)
  = recording (fold_left loop_body (filter (λ x, grouped x = true) l) st')
  ∧ recordings (fold_left loop_body l st)
    = recordings (fold_left loop_body (filter (λ x, grouped x = true) l) st').
Proof.
  induction l as [|x l IH]; intros st st' Hr Hrs; simpl; [done|].
  rewrite filter_cons. case_decide as Hx.
  - simpl. by apply IH; apply loop_body_agree.
  - apply not_true_is_false in Hx. unfold grouped in Hx.
    apply orb_false_iff in Hx as [Hm Hd].
    destruct (loop_body_other st x Hm Hd) as [E1 E2].
    apply IH; congruence.
Qed.

(** Directories, collection files, other regular files and members that are
    not regular files leave no trace in the recordings: the grouping of a
    container is the grouping of its Metadata and Dataset entries alone. *)
Theorem grouping_ignores_other_entries members :
  grouping members = grouping (filter (λ x, grouped x = true) members).
Proof.
  unfold grouping, scan_members, save_final.
  destruct (fold_loop_grouped members scan_init scan_init eq_refl eq_refl)
    as [-> ->].
  done.
Qed.

Lemma has_metadata_app l1 l2 :
  has_metadata (l1 ++ l2) = has_metadata l1 || has_metadata l2.
Proof. unfold has_metadata. apply existsb_app. Qed.

Lemma not_grouped_no_metadata l :
  Forall (λ x, grouped x = false) l → has_metadata l = false.
Proof.
  unfold has_metadata, grouped. induction 1 as [|x l Hx _ IH]; [done|].
  simpl. apply orb_false_iff in Hx as [-> _]. done.
Qed.

Lemma not_grouped_no_dataset l :
  Forall (λ x, grouped x = false) l → last_dataset l = None.
Proof.
  intros H. apply last_dataset_None. eapply Forall_impl; [exact H|].
  unfold grouped. intros x Hx. by apply orb_false_iff in Hx as [_ ->].
Qed.

Lemma is_dataset_not_metadata x : is_dataset x = true → is_metadata x = false.
Proof.
  intros H. destruct (is_metadata x) eqn:E; [|done].
  by rewrite (is_metadata_not_dataset x E) in H.
Qed.

Lemma laid_out_snoc gs g :
  laid_out (gs ++ [g]) = laid_out gs ++ g.1.1 ++ [g.1.2; g.2].
Proof. unfold laid_out. rewrite flat_map_app. simpl. by rewrite app_nil_r. Qed.

Lemma laid_out_has_metadata gs :
  well_laid_out gs → gs ≠ [] → has_metadata (laid_out gs) = true.
Proof.
  intros Hgs Hne. destruct gs as [|g gs]; [done|].
  apply Forall_cons in Hgs as [(_ & Hm & _) _].
  unfold laid_out. simpl. rewrite !has_metadata_app.
  unfold has_metadata at 2. simpl. rewrite Hm. simpl. by rewrite orb_true_r.
Qed.

(** A container written recording by recording reads back as written: one
    recording per (metadata, dataset) pair, in order, each metadata entry
    with its own dataset entry, whatever unrelated entries sit in front of
    the pairs or at the end of the container. *)
Theorem grouping_of_laid_out_container gs :
  well_laid_out gs →
  ∀ trailer,
    Forall (λ x, grouped x = false) trailer →
    grouping (laid_out gs ++ trailer)
    = (λ g, ArchiveRecording.mk (Some g.1.2) (Some g.2)) <$> gs.
Proof.
  induction gs as [|g gs IH] using rev_ind; intros Hgs trailer Htr.
  - simpl. unfold grouping, save_final.
    destruct (scan_no_metadata trailer (not_grouped_no_metadata _ Htr))
      as [Hr Hrs].
    by rewrite Hr, Hrs.
  - apply Forall_app in Hgs as [Hgs Hg].
    apply Forall_singleton in Hg as (Hjunk & Hm & Hd).
    rewrite laid_out_snoc, fmap_app. simpl.
    assert (Hseg : has_metadata ([g.2] ++ trailer) = false).
    { rewrite has_metadata_app, (not_grouped_no_metadata _ Htr), orb_false_r.
      unfold has_metadata. simpl. by rewrite (is_dataset_not_metadata _ Hd). }
    pose proof (grouping_shape (laid_out gs ++ g.1.1) g.1.2 ([g.2] ++ trailer) []
                  Hm Hseg I) as E.
    rewrite app_nil_r in E.
    replace ((laid_out gs ++ g.1.1 ++ [g.1.2; g.2]) ++ trailer)
      with ((laid_out gs ++ g.1.1) ++ g.1.2 :: [g.2] ++ trailer)
      by (by rewrite <- !app_assoc).
    rewrite E.
    assert (last_dataset ([g.2] ++ trailer) = Some g.2) as ->.
    { unfold last_dataset. simpl. rewrite filter_cons, decide_True by done.
      rewrite last_cons. fold (last_dataset trailer).
      by rewrite (not_grouped_no_dataset _ Htr). }
    change (grouping []) with (@nil ArchiveRecording.t).
    f_equal. rewrite (IH Hgs _ Hjunk).
    destruct gs as [|g0 gs].
    + simpl. by destruct (has_metadata g.1.1).
    + by rewrite has_metadata_app, laid_out_has_metadata.
Qed.

End GroupingMore.

(* ===================================================================== *)
(** ** What the loop prints *)
(* ===================================================================== *)

Section Diagnostics.

Context {exts : ArchiveExts}.

Implicit Types (st : scan) (x : TarInfo.t) (l members : list TarInfo.t).

Lemma loop_body_stdout st x :
  (reported x = false → stdout (loop_body st x) = stdout st)
  ∧ (reported x = true →
     ∃ args, stdout (loop_body st x) = stdout st ++ [EvPrint args]
             ∧ TarInfo.name x ∈ args).
Proof.
  unfold reported, is_metadata, is_dataset, loop_body, print.
  destruct (TarInfo.isdir x), (TarInfo.isfile x),
    (endswith (TarInfo.name x) SIGMF_METADATA_EXT),
    (endswith (TarInfo.name x) SIGMF_DATASET_EXT),
    (endswith (TarInfo.name x) SIGMF_COLLECTION_EXT); simpl;
    (split; intros ?); try done;
    try (by destruct (truthy (ArchiveRecording.metadata (recording st))));
    eexists; (split; [done|]); rewrite !elem_of_cons; auto 10.
Qed.

Lemma fold_loop_stdout l : ∀ st,
  ∃ evs,
    stdout (fold_left loop_body l st) = stdout st ++ evs
    ∧ Forall2 (λ e x, ∃ args, e = EvPrint args ∧ TarInfo.name x ∈ args)
        evs (filter (λ x, reported x = true) l).
Proof.
  induction l as [|x l IH]; intros st; simpl.
  - exists []. by rewrite app_nil_r.
  - destruct (IH (loop_body st x)) as (evs & E & HF).
    destruct (loop_body_stdout st x) as [Hno Hyes].
    rewrite filter_cons. case_decide as Hx.
    + destruct (Hyes Hx) as (args & E' & Hin).
      exists (EvPrint args :: evs). rewrite E, E', <- app_assoc.
      split; [done|]. constructor; [by exists args | done].
    + apply not_true_is_false in Hx. exists evs. by rewrite E, (Hno Hx).
Qed.

(** The loop prints one line for each entry that is neither a directory,
    nor a Metadata entry, nor a Dataset entry, in container order, and the
    line names the entry; about directories, Metadata and Dataset entries it
    prints nothing. *)
Theorem one_report_per_unhandled_entry members :
  Forall2 (λ e x, ∃ args, e = EvPrint args ∧ TarInfo.name x ∈ args)
    (stdout (scan_members members))
    (filter (λ x, reported x = true) members).
Proof.
  destruct (fold_loop_stdout members scan_init) as (evs & E & HF).
  unfold scan_members. by rewrite E.
Qed.

End Diagnostics.

(* ===================================================================== *)
(** ** More on the reader *)
(* ===================================================================== *)

Section ReaderMore.

Context {exts : ArchiveExts} {world : Collaborators}.

Variable path : option str.
Variable skip_checksum : bool.
Variable map_readonly : bool.
Variable archive_buffer : option bytes.

Local Abbreviation load_body :=
  (SigMFArchiveReader.load_body path skip_checksum map_readonly archive_buffer).
Local Abbreviation for_recordings :=
  (SigMFArchiveReader.for_recordings path skip_checksum map_readonly archive_buffer).
Local Abbreviation parse :=
  (SigMFArchiveReader.parse path skip_checksum map_readonly archive_buffer).
Local Abbreviation try_block :=
  (SigMFArchiveReader.try_block path skip_checksum map_readonly archive_buffer).
Local Abbreviation init :=
  (SigMFArchiveReader.init path skip_checksum map_readonly archive_buffer).
Local Abbreviation built :=
  (SigMFArchiveReader.built path skip_checksum map_readonly archive_buffer).
Local Abbreviation loads :=
  (SigMFArchiveReader.loads path skip_checksum map_readonly archive_buffer).
Local Abbreviation opens := (SigMFArchiveReader.opens path archive_buffer).
Local Abbreviation open_tar := (SigMFArchiveReader.open_tar path archive_buffer).
Local Abbreviation open_event := (SigMFArchiveReader.open_event path).

Implicit Types (tar : TarFile) (lg : list event) (m : TarInfo.t).
Implicit Types (r : ArchiveRecording.t) (rs : list ArchiveRecording.t).
Implicit Types (fs : list SigMFFile) (members : list TarInfo.t).

(** *** One iteration of the load loop, whatever the collaborators do *)

Lemma load_body_reads_metadata tar fs r m lg :
  ArchiveRecording.metadata r = Some m →
  ∃ res, load_body fs r (Frame (Some tar) lg)
         = (res, Frame (Some tar) (lg ++ [EvExtract m])).
Proof.
  intros Hm. unfold SigMFArchiveReader.load_body. rewrite Hm. cbn [attr].
  unfold mbind, M_bind, mret, M_ret, get_tar_obj, emit. cbn [tar_obj log].
  destruct (extractfile_read tar m) as [json|]; cbn [call]; unfold mret, M_ret, raise.
  - destruct (validate _); by eexists.
  - by eexists.
Qed.

Lemma load_body_ok_metadata tar fs r fs' fr lg :
  load_body fs r (Frame (Some tar) lg) = (inr fs', fr) →
  is_Some (ArchiveRecording.metadata r).
Proof.
  unfold SigMFArchiveReader.load_body.
  destruct (ArchiveRecording.metadata r); [by eexists|].
  cbn [attr]. unfold mbind, M_bind, raise. done.
Qed.

Lemma for_recordings_reads_prefix tar rs : ∀ fs lg,
  ∃ res j,
    for_recordings rs fs (Frame (Some tar) lg)
    = (res, Frame (Some tar)
              (lg ++ (EvExtract <$> take j (omap ArchiveRecording.metadata rs))))
    ∧ (∀ fs', res = inr fs' → j = length (omap ArchiveRecording.metadata rs)).
Proof.
  induction rs as [|r rs IH]; intros fs lg; simpl.
  - exists (inr fs), 0. rewrite app_nil_r. split; [done|]. by intros.
  - unfold mbind, M_bind.
    destruct (ArchiveRecording.metadata r) as [m|] eqn:Hm.
    + destruct (load_body_reads_metadata tar fs r m lg Hm) as [res E].
      rewrite E. destruct res as [e|fs1].
      * exists (inl e), 1. simpl. split; [done|]. by intros.
      * destruct (IH fs1 (lg ++ [EvExtract m])) as (res & j & E' & Hj).
        exists res, (S j). rewrite E'. simpl. rewrite <- app_assoc.
        split; [done|]. intros fs' Hres. by rewrite (Hj fs' Hres).
    + exists (inl AttributeError), 0.
      unfold SigMFArchiveReader.load_body. rewrite Hm. cbn [attr].
      unfold mbind, M_bind, raise. rewrite app_nil_r.
      split; [done|]. by intros.
Qed.

(** *** The parse pass, whatever the collaborators do *)

Lemma guarded_for_recordings rs :
  (if bool_decide (rs ≠ []) then for_recordings rs [] else mret [])
  = for_recordings rs [].
Proof. destruct rs; [done|]. by rewrite bool_decide_true. Qed.

Lemma parse_reads_prefix tar members lg :
  getmembers tar = Some members →
  ∃ res j w,
    parse (Frame (Some tar) lg)
    = (res, Frame (Some tar)
              (lg ++ [EvGetMembers] ++ stdout (scan_members members)
                  ++ (EvExtract <$> take j (metadata_entries members)) ++ w))
    ∧ match res with
      | inl _ => w = []
      | inr _ =>
          j = length (metadata_entries members)
          ∧ w = if existsb (λ r, truthy (ArchiveRecording.data r)) (grouping members)
                then [] else [SigMFArchiveReader.no_dataset_warning]
      end.
Proof.
  intros Hg. unfold SigMFArchiveReader.parse.
  unfold mbind at 1, M_bind at 1, get_tar_obj. cbn [tar_obj].
  unfold mbind at 1, M_bind at 1, emit at 1. cbn [tar_obj log].
  rewrite Hg. cbn [call]. unfold mbind at 1, M_bind at 1, mret at 1, M_ret at 1.
  unfold mbind at 1, M_bind at 1, emit_all at 1. cbn [tar_obj log].
  fold (grouping members).
  destruct (for_recordings_reads_prefix tar (grouping members) []
              ((lg ++ [EvGetMembers]) ++ stdout (scan_members members)))
    as (res & j & E & Hj).
  rewrite grouping_omap in E, Hj.
  rewrite guarded_for_recordings.
  unfold mbind at 1, M_bind at 1. rewrite E.
  destruct res as [e|fs].
  - exists (inl e), j, []. by rewrite app_nil_r, <- !app_assoc.
  - specialize (Hj fs eq_refl).
    unfold SigMFArchiveReader.no_dataset_warning.
    destruct (existsb _ _) eqn:Hex; simpl;
      unfold mbind, M_bind, emit, mret, M_ret; simpl.
    + exists (inr fs), j, []. by rewrite app_nil_r, <- !app_assoc.
    + eexists (inr fs), j, [_]. by rewrite <- !app_assoc.
Qed.

(** Once the container is open and lists its members, the reader's dealings
    with the outside are, in this order: the open, [getmembers], its
    prints, the reading of the first [j] metadata entries in container
    order, at most one warning, and the close.  On success every metadata
    entry was read once; on failure nothing is read after the entry that
    failed and no warning is given.  No entry other than a metadata entry is
    ever read. *)
Theorem reader_reads_metadata_entries_only tar members :
  opens tar →
  getmembers tar = Some members →
  ∃ res j w,
    init
    = (res,
       [open_event; EvGetMembers] ++ stdout (scan_members members)
         ++ (EvExtract <$> take j (metadata_entries members)) ++ w ++ [EvClose])
    ∧ match res with
      | inl _ => w = []
      | inr _ =>
          j = length (metadata_entries members)
          ∧ w = if existsb (λ r, truthy (ArchiveRecording.data r)) (grouping members)
                then [] else [SigMFArchiveReader.no_dataset_warning]
      end.
Proof.
  intros Ho Hg.
  destruct (parse_reads_prefix tar members [open_event] Hg)
    as (res & j & w & E & Hres).
  assert (try_block (Frame None [])
          = (res, Frame (Some tar)
                    ([open_event] ++ [EvGetMembers] ++ stdout (scan_members members)
                     ++ (EvExtract <$> take j (metadata_entries members)) ++ w)))
    as Etry.
  { unfold SigMFArchiveReader.try_block.
    by rewrite (bind_inr _ _ _ _ _ (open_tar_ok path archive_buffer tar Ho)). }
  rewrite (init_of_try_block _ _ _ _ _ _ _ Etry). simpl.
  destruct res as [e|fs].
  - exists (inl e), j, w. by rewrite <- !app_assoc.
  - exists (inr (SigMFArchiveReader.mk path fs)), j, w. by rewrite <- !app_assoc.
Qed.

(** *** Containers without a metadata entry *)

Lemma grouping_without_metadata members :
  has_metadata members = false → grouping members = [].
Proof.
  intros H. apply has_metadata_entries in H.
  apply length_zero_iff_nil. by rewrite grouping_length, H.
Qed.

(** A container without any metadata entry (an empty one, or one that holds
    dataset entries only) opens without error and yields no recording; the
    only things that happen are the open, [getmembers], the prints, one
    warning about the missing dataset suffix, and the close.  No validation
    takes place and no entry is read. *)
Theorem container_without_metadata_yields_nothing tar members :
  opens tar →
  getmembers tar = Some members →
  has_metadata members = false →
  init
  = (inr (SigMFArchiveReader.mk path []),
     [open_event; EvGetMembers] ++ stdout (scan_members members)
       ++ [SigMFArchiveReader.no_dataset_warning; EvClose]).
Proof.
  intros Ho Hg Hno.
  pose proof (grouping_without_metadata members Hno) as Hnil.
  rewrite (init_ok path skip_checksum map_readonly archive_buffer tar members []
             Ho Hg) by (rewrite Hnil; constructor).
  apply has_metadata_entries in Hno. by rewrite Hno, Hnil.
Qed.

(** *** The warning *)

Lemma loads_data tar rs : ∀ files,
  Forall2 (loads tar) rs files →
  Forall (λ f, sf_data_file f = None) files
  ↔ existsb (λ r, truthy (ArchiveRecording.data r)) rs = false.
Proof.
  induction rs as [|r rs IH]; intros files H.
  - apply Forall2_nil_inv_l in H as ->. done.
  - apply Forall2_cons_inv_l in H as (f & fs & (m & json & _ & _ & ->) & H & ->).
    simpl. rewrite Forall_cons, orb_false_iff, (IH _ H).
    unfold SigMFArchiveReader.built.
    destruct (ArchiveRecording.data r); simpl; intuition congruence.
Qed.

(** On a healthy container the warning about the missing dataset suffix is
    given if and only if none of the recordings returned has a dataset
    reference. *)
Theorem warning_iff_no_dataset_reference tar members :
  opens tar →
  SigMFArchiveReader.healthy tar members →
  ∃ self lg,
    init = (inr self, lg)
    ∧ (SigMFArchiveReader.no_dataset_warning ∈ lg
       ↔ Forall (λ f, sf_data_file f = None) (SigMFArchiveReader.sigmffiles self)).
Proof.
  intros Ho Hh.
  destruct (init_healthy path skip_checksum map_readonly archive_buffer
              tar members Ho Hh) as (files & Hl & E).
  eexists _, _. split; [exact E|]. simpl.
  rewrite (loads_data tar _ files Hl).
  destruct (existsb _ _); simpl.
  - split; [|done]. intros Hin. exfalso.
    assert (Forall (λ e, is_warning e = false)
              (open_event :: EvGetMembers
               :: stdout (scan_members members)
                  ++ (EvExtract <$> metadata_entries members) ++ [] ++ [EvClose]))
      as HF.
    { constructor; [unfold SigMFArchiveReader.open_event; by destruct path|].
      constructor; [done|]. apply Forall_app. split.
      - apply stdout_fold_no_warning. constructor.
      - apply Forall_app. split; [by apply Forall_fmap, Forall_true|].
        by repeat constructor. }
    rewrite Forall_forall in HF. by specialize (HF _ Hin).
  - split; [done|]. intros _.
    rewrite !elem_of_cons, !elem_of_app, !elem_of_cons. auto 10.
Qed.

(** *** Where a dataset reference comes from *)

Lemma grouping_data_in_container members r d :
  r ∈ grouping members →
  ArchiveRecording.data r = Some d →
  d ∈ members ∧ is_dataset d = true.
Proof.
  intros Hr Hd. apply list_elem_of_lookup in Hr as [k Hk].
  destruct (grouping_lookup members k r Hk)
    as (pre & m & seg & rest & -> & _ & _ & _ & _ & ->).
  simpl in Hd. destruct (last_dataset seg) as [d'|] eqn:Hseg.
  - injection Hd as ->.
    destruct (last_dataset_split seg d Hseg) as (a & b & -> & Hdd & _).
    split; [|done]. rewrite !elem_of_app, !elem_of_cons, !elem_of_app, !elem_of_cons.
    auto 10.
  - destruct (has_metadata pre); [done|].
    destruct (last_dataset_split pre d Hd) as (a & b & -> & Hdd & _).
    split; [|done]. rewrite !elem_of_app, !elem_of_cons. auto 10.
Qed.

(** Every dataset reference the reader hands out points at a Dataset entry
    of the container (its data offset and its size), and carries the path,
    the buffer and the two flags the reader was called with. *)
Theorem dataset_references_point_into_container tar members :
  opens tar →
  SigMFArchiveReader.healthy tar members →
  ∃ self lg,
    init = (inr self, lg)
    ∧ Forall (λ f, ∀ df,
          sf_data_file f = Some df →
          df_path df = path
          ∧ df_buffer df = archive_buffer
          ∧ df_skip_checksum df = skip_checksum
          ∧ df_map_readonly df = map_readonly
          ∧ ∃ d, d ∈ members ∧ is_dataset d = true
                 ∧ df_offset df = TarInfo.offset_data d
                 ∧ df_size_bytes df = TarInfo.size d)
        (SigMFArchiveReader.sigmffiles self).
Proof.
  intros Ho Hh.
  destruct (init_healthy path skip_checksum map_readonly archive_buffer
              tar members Ho Hh) as (files & Hl & E).
  eexists _, _. split; [exact E|]. simpl.
  apply Forall_forall. intros f Hf df Hdf.
  apply list_elem_of_lookup in Hf as [k Hk].
  destruct (Forall2_lookup_r _ _ _ _ _ Hl Hk)
    as (r & Hr & m & json & _ & _ & ->).
  unfold SigMFArchiveReader.built in Hdf.
  destruct (ArchiveRecording.data r) as [d|] eqn:Hd; [|done].
  simpl in Hdf. injection Hdf as <-. simpl.
  repeat split; try done.
  destruct (grouping_data_in_container members r d) as [Hin Hdd];
    [by eapply list_elem_of_lookup_2 | done |].
  by exists d.
Qed.

(** *** Failures of the library calls *)

Lemma for_recordings_stops tar rs1 fs1 r rs2 m e fs lg :
  Forall2 (loads tar) rs1 fs1 →
  (∀ fs' lg', load_body fs' r (Frame (Some tar) lg')
              = (inl e, Frame (Some tar) (lg' ++ [EvExtract m]))) →
  for_recordings (rs1 ++ r :: rs2) fs (Frame (Some tar) lg)
  = (inl e,
     Frame (Some tar)
       (lg ++ (EvExtract <$> omap ArchiveRecording.metadata rs1) ++ [EvExtract m])).
Proof.
  intros H Hstop. revert fs1 fs lg H.
  induction rs1 as [|r1 rs1 IH]; intros fs1 fs lg H.
  - simpl. by erewrite bind_inl by apply Hstop.
  - apply Forall2_cons_inv_l in H as (f & fs'' & (m1 & j1 & Hm1 & Hs & ->) & H & ->).
    simpl. erewrite bind_inr by by apply load_body_ok.
    rewrite (IH _ _ _ H), Hm1. simpl.
    by rewrite <- !app_assoc.
Qed.

Lemma load_body_unreadable tar fs r m lg :
  ArchiveRecording.metadata r = Some m →
  extractfile_read tar m = None →
  load_body fs r (Frame (Some tar) lg)
  = (inl ReadError, Frame (Some tar) (lg ++ [EvExtract m])).
Proof.
  intros Hm Hread. unfold SigMFArchiveReader.load_body.
  rewrite Hm. cbn [attr]. unfold mbind, M_bind, mret, M_ret, get_tar_obj, emit.
  cbn [tar_obj log]. by rewrite Hread.
Qed.

(** A failure of [tarfile.open] leaves [__init__] with nothing to close; a
    failure of [getmembers] or of reading a metadata entry leaves it through
    [finally], which closes the container.  In each case the error is the
    caller's, and reading stops at the entry that could not be read. *)
Theorem library_failures_propagate :
  (∀ p, path = Some p →
        endswith p SIGMF_ARCHIVE_EXT = true →
        tarfile_open_path p = None →
        init = (inl ReadError, [EvOpenPath p]))
  ∧ (∀ b, path = None →
          archive_buffer = Some b →
          tarfile_open_buffer b = None →
          init = (inl ReadError, [EvOpenBuffer]))
  ∧ (∀ tar, opens tar →
            getmembers tar = None →
            init = (inl ReadError, [open_event; EvGetMembers; EvClose]))
  ∧ (∀ tar members k m,
        opens tar →
        getmembers tar = Some members →
        metadata_entries members !! k = Some m →
        (∀ m', m' ∈ take k (metadata_entries members) →
               ∃ j, SigMFArchiveReader.sound tar m' j) →
        extractfile_read tar m = None →
        init
        = (inl ReadError,
           [open_event; EvGetMembers] ++ stdout (scan_members members)
             ++ (EvExtract <$> take (S k) (metadata_entries members))
             ++ [EvClose])).
Proof.
  split; [|split; [|split]].
  - intros p Hp Hext Hopen.
    unfold SigMFArchiveReader.init, try_finally, SigMFArchiveReader.finally_block,
      SigMFArchiveReader.try_block, SigMFArchiveReader.open_tar.
    rewrite Hp, Hext. unfold mbind, M_bind, emit. simpl. by rewrite Hopen.
  - intros b Hp Hb Hopen.
    unfold SigMFArchiveReader.init, try_finally, SigMFArchiveReader.finally_block,
      SigMFArchiveReader.try_block, SigMFArchiveReader.open_tar.
    rewrite Hp, Hb. unfold mbind, M_bind, emit. simpl. by rewrite Hopen.
  - intros tar Ho Hg.
    erewrite init_of_try_block; last first.
    { unfold SigMFArchiveReader.try_block.
      rewrite (bind_inr _ _ _ _ _ (open_tar_ok path archive_buffer tar Ho)).
      unfold SigMFArchiveReader.parse.
      unfold mbind at 1, M_bind at 1, get_tar_obj. cbn [tar_obj].
      unfold mbind at 1, M_bind at 1, emit at 1. cbn [tar_obj log].
      rewrite Hg. cbn [call]. unfold mbind at 1, M_bind at 1, raise.
      reflexivity. }
    done.
  - intros tar members k m Ho Hg Hk Hsound Hread.
    assert (∃ r, grouping members !! k = Some r) as [r Hr].
    { apply lookup_lt_is_Some. rewrite grouping_length.
      by eapply lookup_lt_Some. }
    destruct (grouping_lookup_metadata members k r Hr) as (m' & Hm & Hk').
    assert (m' = m) as -> by congruence.
    assert (ArchiveRecording.metadata <$> take k (grouping members)
            = Some <$> take k (metadata_entries members)) as Htake
      by by rewrite !fmap_take, grouping_metadata.
    destruct (loads_all path skip_checksum map_readonly archive_buffer
                tar (take k (grouping members))) as [fs1 Hfs1].
    { intros r' Hr'. apply list_elem_of_lookup in Hr' as [i Hi].
      assert ((ArchiveRecording.metadata <$> take k (grouping members)) !! i
              = Some (ArchiveRecording.metadata r')) as H
        by by rewrite list_lookup_fmap, Hi.
      rewrite Htake, list_lookup_fmap in H.
      destruct (take k (metadata_entries members) !! i) as [mi|] eqn:Hmi;
        simplify_eq/=.
      destruct (Hsound mi) as [j Hj]; [by eapply list_elem_of_lookup_2|].
      by exists mi, j. }
    erewrite init_of_try_block; last first.
    { unfold SigMFArchiveReader.try_block.
      rewrite (bind_inr _ _ _ _ _ (open_tar_ok path archive_buffer tar Ho)).
      unfold SigMFArchiveReader.parse.
      unfold mbind at 1, M_bind at 1, get_tar_obj. cbn [tar_obj].
      unfold mbind at 1, M_bind at 1, emit at 1. cbn [tar_obj log].
      rewrite Hg. cbn [call]. unfold mbind at 1, M_bind at 1, mret at 1, M_ret at 1.
      unfold mbind at 1, M_bind at 1, emit_all at 1. cbn [tar_obj log].
      fold (grouping members). rewrite guarded_for_recordings.
      erewrite bind_inl; last first.
      { rewrite <- (take_drop_middle _ _ _ Hr).
        apply (for_recordings_stops tar _ fs1 r _ m ReadError); [done|].
        intros fs' lg'. by apply load_body_unreadable. }
      reflexivity. }
    simpl. rewrite (omap_of_fmap_Some _ _ _ Htake), (take_S_r _ _ _ Hk), fmap_app.
    by rewrite <- !app_assoc.
Qed.

End ReaderMore.

(* ===================================================================== *)
(** ** Containers without a dataset *)
(* ===================================================================== *)

Section ReaderWithoutDatasets.

Context {exts : ArchiveExts} {world : Collaborators}.

Variable path : option str.
Variable skip_checksum : bool.
Variable map_readonly : bool.
Variable archive_buffer : option bytes.

Local Abbreviation load_body :=
  (SigMFArchiveReader.load_body path skip_checksum map_readonly archive_buffer).
Local Abbreviation for_recordings :=
  (SigMFArchiveReader.for_recordings path skip_checksum map_readonly archive_buffer).
Local Abbreviation parse :=
  (SigMFArchiveReader.parse path skip_checksum map_readonly archive_buffer).
Local Abbreviation try_block :=
  (SigMFArchiveReader.try_block path skip_checksum map_readonly archive_buffer).
Local Abbreviation init :=
  (SigMFArchiveReader.init path skip_checksum map_readonly archive_buffer).
Local Abbreviation built :=
  (SigMFArchiveReader.built path skip_checksum map_readonly archive_buffer).
Local Abbreviation loads :=
  (SigMFArchiveReader.loads path skip_checksum map_readonly archive_buffer).
Local Abbreviation opens := (SigMFArchiveReader.opens path archive_buffer).
Local Abbreviation open_event := (SigMFArchiveReader.open_event path).
Local Abbreviation sound := SigMFArchiveReader.sound.

Implicit Types (tar : TarFile) (lg : list event) (m : TarInfo.t).
Implicit Types (r : ArchiveRecording.t) (rs : list ArchiveRecording.t).
Implicit Types (fs : list SigMFFile) (members : list TarInfo.t).

Lemma Forall2_with_Forall {A B} (P : A → B → Prop) (Q : A → Prop) l k :
  Forall2 P l k → Forall Q l → Forall2 (λ x y, P x y ∧ Q x) l k.
Proof.
  induction 1 as [|x y l k HP _ IH]; intros HQ; [constructor|].
  apply Forall_cons in HQ as [Hx HQ]. constructor; auto.
Qed.

(** A metadata entry that cannot be read, or whose document fails
    validation, ends the load loop with that error. *)
Lemma for_recordings_unsound tar rs : ∀ ms fs lg m,
  ArchiveRecording.metadata <$> rs = Some <$> ms →
  m ∈ ms →
  (∀ json, ¬ sound tar m json) →
  ∃ e j,
    (e = ReadError ∨ e = ValidationError)
    ∧ for_recordings rs fs (Frame (Some tar) lg)
      = (inl e, Frame (Some tar) (lg ++ (EvExtract <$> take j ms))).
Proof.
  induction rs as [|r rs IH]; intros [|m0 ms] fs lg m Hms Hin Hno;
    simplify_eq/=; [by apply elem_of_nil in Hin|].
  destruct (extractfile_read tar m0) as [json|] eqn:Hread;
    [destruct (validate (SigMFFile_new (SigMFArchiveReader.sigmffile_name m0) json))
       eqn:Hval|].
  - assert (sound tar m0 json) as Hs by done.
    assert (m ∈ ms) as Hin'.
    { apply elem_of_cons in Hin as [->|Hin]; [by destruct (Hno json)|done]. }
    erewrite bind_inr by by apply load_body_ok.
    destruct (IH ms (fs ++ [built r m0 json]) (lg ++ [EvExtract m0]) m)
      as (e & j & He & E); [done..|].
    exists e, (S j). split; [done|]. rewrite E. simpl. by rewrite <- app_assoc.
  - exists ValidationError, 1. split; [by right|]. simpl.
    erewrite bind_inl; [done|].
    by apply (load_body_invalid _ _ _ _ tar fs r m0 json).
  - exists ReadError, 1. split; [by left|]. simpl.
    erewrite bind_inl; [done|]. by apply load_body_unreadable.
Qed.

Lemma parse_unsound tar members m lg :
  getmembers tar = Some members →
  m ∈ metadata_entries members →
  (∀ json, ¬ sound tar m json) →
  ∃ e j,
    (e = ReadError ∨ e = ValidationError)
    ∧ parse (Frame (Some tar) lg)
      = (inl e,
         Frame (Some tar)
           (lg ++ [EvGetMembers] ++ stdout (scan_members members)
               ++ (EvExtract <$> take j (metadata_entries members)))).
Proof.
  intros Hg Hin Hno. unfold SigMFArchiveReader.parse.
  unfold mbind at 1, M_bind at 1, get_tar_obj. cbn [tar_obj].
  unfold mbind at 1, M_bind at 1, emit at 1. cbn [tar_obj log].
  rewrite Hg. cbn [call]. unfold mbind at 1, M_bind at 1, mret at 1, M_ret at 1.
  unfold mbind at 1, M_bind at 1, emit_all at 1. cbn [tar_obj log].
  fold (grouping members).
  rewrite guarded_for_recordings.
  destruct (for_recordings_unsound tar (grouping members)
              (metadata_entries members) []
              ((lg ++ [EvGetMembers]) ++ stdout (scan_members members)) m
              (grouping_metadata members) Hin Hno) as (e & j & He & E).
  exists e, j. split; [done|].
  rewrite (bind_inl _ _ _ _ _ E). by rewrite <- !app_assoc.
Qed.

(** C9, as the code has it.  Take a container that opens, lists its
    members, and none of whose recordings carries a dataset (a
    metadata-only archive, or one without any dataset entry).  If every
    metadata entry can be read and passes validation, the call succeeds and
    returns exactly the metadata-only recordings: one [SigMFFile] per
    metadata entry, in container order, named after that entry, holding
    the document read from it, and without a dataset reference; the log
    holds exactly one warning, the one about the missing dataset suffix.
    If some metadata entry cannot be read or fails validation, the call
    fails with the read or validation error and gives no warning at all:
    the missing datasets never turn a failure into a success. *)
Theorem C9_metadata_only_recordings_one_warning tar members :
  opens tar →
  getmembers tar = Some members →
  Forall (λ r, ArchiveRecording.data r = None) (grouping members) →
  ((∀ m, m ∈ metadata_entries members → ∃ json, sound tar m json) →
   ∃ self lg,
     init = (inr self, lg)
     ∧ Forall2 (λ f m,
           sf_name f = SigMFArchiveReader.sigmffile_name m
           ∧ extractfile_read tar m = Some (sf_metadata f)
           ∧ sf_data_file f = None)
         (SigMFArchiveReader.sigmffiles self) (metadata_entries members)
     ∧ filter (λ e, is_warning e = true) lg
       = [SigMFArchiveReader.no_dataset_warning])
  ∧ (∀ m, m ∈ metadata_entries members →
          (∀ json, ¬ sound tar m json) →
          ∃ e lg,
            init = (inl e, lg)
            ∧ (e = ReadError ∨ e = ValidationError)
            ∧ filter (λ e, is_warning e = true) lg = []).
Proof.
  intros Ho Hg Hnone. split.
  - intros Hsound.
    assert (SigMFArchiveReader.healthy tar members) as Hh by done.
    destruct (healthy_loads path skip_checksum map_readonly archive_buffer
                tar members Hh) as [files Hl].
    eexists _, _.
    split; [by apply (init_ok _ _ _ _ tar members files)|].
    split.
    + simpl.
      pose proof (loads_metadata path skip_checksum map_readonly archive_buffer
                    tar _ files _ Hl (grouping_metadata members)) as HF.
      assert (Forall (λ f, sf_data_file f = None) files) as HN.
      { clear HF Hh Hsound Hg Ho.
        induction Hl as [|r f rs fs' (m & json & _ & _ & ->) _ IH]; [constructor|].
        apply Forall_cons in Hnone as [Hr Hrs].
        constructor; [by apply built_without_data | by apply IH]. }
      eapply Forall2_impl; [exact (Forall2_with_Forall _ _ _ _ HF HN)|].
      by intros f m [[Hn Hr] Hf].
    + assert (existsb (λ r, truthy (ArchiveRecording.data r)) (grouping members)
              = false) as ->.
      { clear Hl. induction Hnone as [|r rs Hr _ IH]; [done|].
        simpl. by rewrite Hr, IH. }
      rewrite !filter_app.
      rewrite (filter_warning_quiet (stdout _))
        by (apply stdout_fold_no_warning; constructor).
      rewrite (filter_warning_quiet (EvExtract <$> _))
        by (apply Forall_fmap, Forall_true; done).
      unfold SigMFArchiveReader.open_event. by destruct path.
  - intros m Hin Hno.
    destruct (parse_unsound tar members m [open_event] Hg Hin Hno)
      as (e & j & He & E).
    assert (try_block (Frame None [])
            = (inl e,
               Frame (Some tar)
                 ([open_event] ++ [EvGetMembers] ++ stdout (scan_members members)
                    ++ (EvExtract <$> take j (metadata_entries members)))))
      as Etry.
    { unfold SigMFArchiveReader.try_block.
      by rewrite (bind_inr _ _ _ _ _ (open_tar_ok path archive_buffer tar Ho)). }
    rewrite (init_of_try_block _ _ _ _ _ _ _ Etry). cbn [truthy].
    eexists _, _. split; [done|]. split; [done|].
    rewrite !filter_app.
    rewrite (filter_warning_quiet (stdout _))
      by (apply stdout_fold_no_warning; constructor).
    rewrite (filter_warning_quiet (EvExtract <$> _))
      by (apply Forall_fmap, Forall_true; done).
    unfold SigMFArchiveReader.open_event. by destruct path.
Qed.

End ReaderWithoutDatasets.

Section ScenariosWithoutDatasets.

#[local] Existing Instance scenario_exts.

(** The spec's third scenario, and the same container with a document that
    does not pass validation. *)
Lemma C9_witness :
  (∃ self lg,
     SigMFArchiveReader.init (world:=scenario_world metadata_only)
       sample_path false true None = (inr self, lg)
     ∧ Forall2 (λ f m,
           sf_name f = SigMFArchiveReader.sigmffile_name m
           ∧ extractfile_read (sample_tar metadata_only) m = Some (sf_metadata f)
           ∧ sf_data_file f = None)
         (SigMFArchiveReader.sigmffiles self) (metadata_entries metadata_only)
     ∧ filter (λ e, is_warning e = true) lg
       = [SigMFArchiveReader.no_dataset_warning])
  ∧ (∃ e lg,
       SigMFArchiveReader.init (world:=sample_world metadata_only reject_all)
         sample_path false true None = (inl e, lg)
       ∧ (e = ReadError ∨ e = ValidationError)
       ∧ filter (λ e, is_warning e = true) lg = []).
Proof.
  split.
  - apply (proj1 (C9_metadata_only_recordings_one_warning
                    (world:=scenario_world metadata_only)
                    sample_path false true None
                    (sample_tar metadata_only) metadata_only
                    (scenario_opens metadata_only accept_all) eq_refl
                    ltac:(vm_compute; by repeat constructor))).
    intros m _. exists document. split; reflexivity.
  - apply (proj2 (C9_metadata_only_recordings_one_warning
                    (world:=sample_world metadata_only reject_all)
                    sample_path false true None
                    (sample_tar metadata_only) metadata_only
                    (scenario_opens metadata_only reject_all) eq_refl
                    ltac:(vm_compute; by repeat constructor))
             (regular "rec1.meta" 512 96)).
    + vm_compute. apply list_elem_of_here.
    + intros json [_ Hv]. discriminate Hv.
Defined.

(** C9 fails as stated: the metadata-only container of the spec's scenario,
    with a document that does not pass validation, has no dataset entry, yet
    the call fails and no warning is given. *)
Lemma C9_counterexample :
  TarInfo.name <$> metadata_only = [lit "rec1.meta"]
  ∧ existsb is_dataset metadata_only = false
  ∧ SigMFArchiveReader.init (world:=sample_world metadata_only reject_all)
      sample_path false true None
    = (inl ValidationError,
       [EvOpenPath (lit "scenario.sigmf"); EvGetMembers;
        EvExtract (regular "rec1.meta" 512 96); EvClose]).
Proof. repeat split. Qed.

End ScenariosWithoutDatasets.

(* ===================================================================== *)
(** ** Subscripting and iterating the reader *)
(* ===================================================================== *)

Section SequenceFacts.

Context {A : Type}.

Implicit Types (l : list A) (x : A).

Lemma item_nonnegative l i x :
  l !! i = Some x → Sequence.item l (Z.of_nat i) = inr x.
Proof.
  intros H. pose proof (lookup_lt_Some _ _ _ H) as Hlt. unfold Sequence.item.
  destruct (Z.of_nat i <? 0)%Z eqn:E1; [lia|].
  rewrite E1. simpl.
  destruct (Z.of_nat (length l) <=? Z.of_nat i)%Z eqn:E2; [lia|].
  by rewrite Nat2Z.id, H.
Qed.

Lemma item_negative l i x :
  l !! i = Some x →
  Sequence.item l (Z.of_nat i - Z.of_nat (length l)) = inr x.
Proof.
  intros H. pose proof (lookup_lt_Some _ _ _ H) as Hlt. unfold Sequence.item.
  destruct (Z.of_nat i - Z.of_nat (length l) <? 0)%Z eqn:E1; [|lia].
  replace (Z.of_nat i - Z.of_nat (length l) + Z.of_nat (length l))%Z
    with (Z.of_nat i) by lia.
  destruct (Z.of_nat i <? 0)%Z eqn:E2; [lia|]. simpl.
  destruct (Z.of_nat (length l) <=? Z.of_nat i)%Z eqn:E3; [lia|].
  by rewrite Nat2Z.id, H.
Qed.

Lemma item_out_of_range l (i : Z) :
  (i < - Z.of_nat (length l) ∨ Z.of_nat (length l) ≤ i)%Z →
  Sequence.item l i = inl Sequence.IndexError.
Proof.
  intros H. unfold Sequence.item.
  destruct (i <? 0)%Z eqn:E1.
  - destruct (i + Z.of_nat (length l) <? 0)%Z eqn:E2; [done|lia].
  - rewrite E1. simpl.
    destruct (Z.of_nat (length l) <=? i)%Z eqn:E2; [done|lia].
Qed.

Lemma run_of_lookups l a : ∀ c,
  a + c ≤ length l →
  omap (λ k, l !! Z.to_nat (Z.of_nat a + Z.of_nat k * 1)) (seq 0 c)
  = take c (drop a l).
Proof.
  induction c as [|c IH]; intros Hc; [done|].
  rewrite seq_S, omap_app, IH by lia. simpl.
  replace (Z.to_nat (Z.of_nat a + Z.of_nat c * 1)) with (a + c) by lia.
  destruct (lookup_lt_is_Some_2 l (a + c)) as [x Hx]; [lia|].
  rewrite Hx. simpl. symmetry. apply take_S_r. by rewrite lookup_drop.
Qed.

Lemma slice_run l a b :
  a ≤ b ≤ length l →
  Sequence.slice l (Some (Z.of_nat a)) (Some (Z.of_nat b)) None
  = inr (take (b - a) (drop a l)).
Proof.
  intros H. unfold Sequence.slice, Sequence.adjust, Sequence.slice_length. simpl.
  destruct (Z.of_nat a <? 0)%Z eqn:E1; [lia|].
  destruct (Z.of_nat b <? 0)%Z eqn:E2; [lia|].
  assert ((if (Z.of_nat (length l) <=? Z.of_nat a)%Z
           then Z.of_nat (length l) else Z.of_nat a) = Z.of_nat a) as ->
    by (case_match; lia).
  assert ((if (Z.of_nat (length l) <=? Z.of_nat b)%Z
           then Z.of_nat (length l) else Z.of_nat b) = Z.of_nat b) as ->
    by (case_match; lia).
  f_equal. destruct (Z.of_nat a <? Z.of_nat b)%Z eqn:E3.
  - rewrite Z.div_1_r.
    replace (Z.to_nat (Z.of_nat b - Z.of_nat a - 1 + 1)) with (b - a) by lia.
    apply run_of_lookups. lia.
  - replace (b - a) with 0 by lia. done.
Qed.

Lemma slice_all l : Sequence.slice l None None None = inr l.
Proof.
  unfold Sequence.slice, Sequence.adjust, Sequence.slice_length. simpl.
  f_equal. destruct (0 <? Z.of_nat (length l))%Z eqn:E.
  - rewrite Z.div_1_r.
    replace (Z.to_nat (Z.of_nat (length l) - 0 - 1 + 1)) with (length l) by lia.
    pose proof (run_of_lookups l 0 (length l)) as R.
    change (Z.of_nat 0) with 0%Z in R. rewrite R by lia.
    by rewrite drop_0, firstn_all.
  - destruct l; [done|]. exfalso. apply Z.ltb_ge in E.
    rewrite length_cons in E. lia.
Qed.

Lemma omap_ext_in {B} (f g : nat → option B) (ks : list nat) :
  (∀ k, k ∈ ks → f k = g k) → omap f ks = omap g ks.
Proof.
  induction ks as [|k ks IH]; intros H; [done|].
  assert (omap f ks = omap g ks) as E
    by (apply IH; intros k' Hk'; apply H; by right).
  change (omap f (k :: ks)) with
    (match f k with Some y => y :: omap f ks | None => omap f ks end).
  change (omap g (k :: ks)) with
    (match g k with Some y => y :: omap g ks | None => omap g ks end).
  rewrite E, (H k) by by left. done.
Qed.

Lemma omap_cons_Some {B} (f : nat → option B) k ks y :
  f k = Some y → omap f (k :: ks) = y :: omap f ks.
Proof.
  intros H.
  change (omap f (k :: ks)) with
    (match f k with Some y => y :: omap f ks | None => omap f ks end).
  by rewrite H.
Qed.

Lemma backwards_lookups l :
  omap (λ k, l !! Z.to_nat (Z.of_nat (length l) - 1 + Z.of_nat k * -1))
    (seq 0 (length l))
  = reverse l.
Proof.
  induction l as [|x l IH] using rev_ind; [done|].
  rewrite length_app, reverse_snoc.
  replace (length l + length [x]) with (S (length l)) by (simpl; lia).
  rewrite <- cons_seq, <- fmap_S_seq.
  rewrite (omap_cons_Some _ _ _ x); last first.
  { replace (Z.to_nat (Z.of_nat (S (length l)) - 1 + Z.of_nat 0 * -1))
      with (length l) by lia.
    by apply list_lookup_middle. }
  f_equal. rewrite <- IH. apply list_omap_ext, Forall2_fmap_l.
  apply Forall_Forall2_diag, Forall_forall. intros k Hk.
  apply elem_of_seq in Hk. unfold compose.
  replace (Z.to_nat (Z.of_nat (S (length l)) - 1 + Z.of_nat (S k) * -1))
    with (length l - 1 - k) by lia.
  replace (Z.to_nat (Z.of_nat (length l) - 1 + Z.of_nat k * -1))
    with (length l - 1 - k) by lia.
  apply lookup_app_l. lia.
Qed.

Lemma slice_reversed l :
  Sequence.slice l None None (Some (-1)%Z) = inr (reverse l).
Proof.
  unfold Sequence.slice, Sequence.adjust, Sequence.slice_length. simpl.
  f_equal. destruct (-1 <? Z.of_nat (length l) - 1)%Z eqn:E.
  - change (- (-1))%Z with 1%Z. rewrite Z.div_1_r.
    replace (Z.to_nat (Z.of_nat (length l) - 1 - -1 - 1 + 1))
      with (length l) by lia.
    apply backwards_lookups.
  - destruct l; [done|]. exfalso. apply Z.ltb_ge in E.
    rewrite length_cons in E. lia.
Qed.

End SequenceFacts.

Section ReaderSequence.

Context {exts : ArchiveExts} {world : Collaborators}.

Variable path : option str.
Variable skip_checksum : bool.
Variable map_readonly : bool.
Variable archive_buffer : option bytes.

Local Abbreviation init :=
  (SigMFArchiveReader.init path skip_checksum map_readonly archive_buffer).
Local Abbreviation opens := (SigMFArchiveReader.opens path archive_buffer).

(** The reader of a healthy container is as long as the container has
    metadata entries; subscripted with [i] or with [i - len] it gives the
    recording named after and built from the [i]-th metadata entry, and
    with an index outside [-len .. len - 1] it raises [IndexError]. *)
Theorem reader_items_follow_metadata_entries tar members :
  opens tar →
  SigMFArchiveReader.healthy tar members →
  ∃ self lg,
    init = (inr self, lg)
    ∧ SigMFArchiveReader.len self = length (metadata_entries members)
    ∧ (∀ i m,
         metadata_entries members !! i = Some m →
         ∃ f,
           Sequence.getitem self (Sequence.Index (Z.of_nat i)) = inr (inl f)
           ∧ Sequence.getitem self
               (Sequence.Index (Z.of_nat i - Z.of_nat (SigMFArchiveReader.len self)))
             = inr (inl f)
           ∧ sf_name f = SigMFArchiveReader.sigmffile_name m
           ∧ extractfile_read tar m = Some (sf_metadata f))
    ∧ (∀ i : Z,
         (i < - Z.of_nat (SigMFArchiveReader.len self)
          ∨ Z.of_nat (SigMFArchiveReader.len self) ≤ i)%Z →
         Sequence.getitem self (Sequence.Index i) = inl Sequence.IndexError).
Proof.
  intros Ho Hh.
  destruct (init_healthy path skip_checksum map_readonly archive_buffer
              tar members Ho Hh) as (files & Hl & E).
  pose proof (loads_metadata path skip_checksum map_readonly archive_buffer
                tar _ files _ Hl (grouping_metadata members)) as HF.
  eexists _, _. split; [exact E|].
  unfold SigMFArchiveReader.len, Sequence.getitem. simpl.
  split; [by apply Forall2_length in HF|]. split.
  - intros i m Hm.
    destruct (Forall2_lookup_r _ _ _ _ _ HF Hm) as (f & Hf & Hname & Hread).
    exists f. by rewrite (item_nonnegative files i f Hf), (item_negative files i f Hf).
  - intros i Hi. by rewrite item_out_of_range.
Qed.

(** Iterating the reader and slicing it go over the same list: [reader[:]]
    is what iteration yields, [reader[a:b]] with [0 ≤ a ≤ b ≤ len] is the
    run of [b - a] recordings that starts at position [a], [reader[::-1]]
    is the iteration backwards, and a zero step raises [ValueError]. *)
Theorem reader_slices_are_runs_of_the_iteration (self : SigMFArchiveReader.t) :
  Sequence.getitem self (Sequence.Slice None None None)
  = inr (inr (Sequence.iter self))
  ∧ (∀ a b,
       a ≤ b ≤ SigMFArchiveReader.len self →
       Sequence.getitem self
         (Sequence.Slice (Some (Z.of_nat a)) (Some (Z.of_nat b)) None)
       = inr (inr (take (b - a) (drop a (Sequence.iter self)))))
  ∧ Sequence.getitem self (Sequence.Slice None None (Some (-1)%Z))
    = inr (inr (reverse (Sequence.iter self)))
  ∧ (∀ start stop,
       Sequence.getitem self (Sequence.Slice start stop (Some 0%Z))
       = inl Sequence.ValueError).
Proof.
  unfold Sequence.getitem, Sequence.iter, SigMFArchiveReader.len.
  split; [by rewrite slice_all|]. split; [|split].
  - intros a b H. by rewrite slice_run.
  - by rewrite slice_reversed.
  - done.
Qed.

End ReaderSequence.

(* ===================================================================== *)
(** ** Sharing in the loop on references *)
(* ===================================================================== *)

Section RefsMore.

Context {exts : ArchiveExts}.

Implicit Types (st : Refs.state) (memb : TarInfo.t).

Lemma nodup_loop_body st memb :
  Refs.wf st → NoDup (Refs.recordings st) →
  NoDup (Refs.recordings (Refs.loop_body st memb)).
Proof.
  intros (Hr & Hrs & Hnot) Hnd.
  unfold Refs.loop_body, Refs.alloc, Refs.print.
  repeat case_match; simplify_eq/=; try done.
  apply NoDup_app. repeat split; [done| |apply NoDup_singleton].
  intros l Hl. rewrite list_elem_of_singleton. by intros ->.
Qed.

Lemma nodup_fold members : ∀ st,
  Refs.wf st → NoDup (Refs.recordings st) →
  NoDup (Refs.recordings (fold_left Refs.loop_body members st)).
Proof.
  induction members as [|x members IH]; intros st Hwf Hnd; simpl; [done|].
  apply IH; [by apply wf_loop_body | by apply nodup_loop_body].
Qed.

(** The list [recordings] the load loop walks holds each
    [ArchiveRecording] object once: no reference is appended twice, every
    reference points into the store, and read through the store the list is
    the grouping computed on values.  So no assignment of the loop reaches a
    recording through a second name. *)
Theorem saved_references_are_distinct members :
  NoDup (Refs.recordings (Refs.save_final (Refs.scan_members members)))
  ∧ Forall (λ l, l < length (Refs.heap (Refs.save_final (Refs.scan_members members))))
      (Refs.recordings (Refs.save_final (Refs.scan_members members)))
  ∧ Refs.deref (Refs.heap (Refs.save_final (Refs.scan_members members)))
      <$> Refs.recordings (Refs.save_final (Refs.scan_members members))
    = grouping members.
Proof.
  pose proof (wf_fold members Refs.scan_init wf_init) as (Hr & Hrs & Hnot).
  pose proof (nodup_fold members Refs.scan_init wf_init (NoDup_nil_2)) as Hnd.
  fold (Refs.scan_members members) in Hr, Hrs, Hnot, Hnd.
  split; [|split].
  - unfold Refs.save_final. case_truthy; simpl; [|done].
    apply NoDup_app. repeat split; [done| |apply NoDup_singleton].
    intros l Hl. rewrite list_elem_of_singleton. by intros ->.
  - unfold Refs.save_final. case_truthy; simpl; [|done].
    apply Forall_app. split; [done|]. by apply Forall_singleton.
  - apply (save_final_refines members).
Qed.

End RefsMore.

(* ===================================================================== *)
(** ** The wav converter *)
(* ===================================================================== *)

Section MorePathFacts.

Implicit Types (p a b : str) (c : ascii).

Lemma endswith_app a b : endswith (a ++ b) b = true.
Proof.
  unfold endswith. rewrite length_app.
  replace (length a + length b - length b) with (length a) by lia.
  rewrite drop_app_length, bool_decide_true by done.
  rewrite andb_true_r. apply Nat.leb_le. lia.
Qed.

Lemma endswith_last a x c :
  last a = Some x → x ≠ c → endswith a [c] = false.
Proof.
  intros Hl Hx. apply last_Some in Hl as [a' ->].
  unfold endswith. rewrite length_app. simpl.
  replace (length a' + 1 - 1) with (length a') by lia.
  rewrite drop_app_length, bool_decide_false; [by rewrite andb_false_r|].
  congruence.
Qed.

Lemma rfind_present p c : c ∈ p → (0 ≤ rfind p c)%Z.
Proof.
  induction p as [|x p IH]; intros Hin; [by apply elem_of_nil in Hin|].
  simpl. destruct (0 <=? rfind p c)%Z eqn:E; [lia|].
  apply elem_of_cons in Hin as [->|Hin].
  - rewrite bool_decide_true by done. lia.
  - specialize (IH Hin). lia.
Qed.

Lemma rfind_found p c :
  (0 ≤ rfind p c)%Z →
  ∃ a b, p = a ++ c :: b ∧ (c ∉ b) ∧ rfind p c = Z.of_nat (length a).
Proof.
  induction p as [|x p IH]; simpl; [lia|].
  destruct (0 <=? rfind p c)%Z eqn:E.
  - intros _. destruct IH as (a & b & -> & Hb & Hr); [lia|].
    exists (x :: a), b. simpl. rewrite Hr. repeat split; [done|lia].
  - case_bool_decide as Hx; [|lia]. intros _. subst x.
    exists [], p. repeat split. intros Hin.
    apply rfind_present in Hin. lia.
Qed.

(** [os.path.basename] never returns a path with a separator. *)
Lemma basename_no_sep p : sep ∉ basename p.
Proof.
  unfold basename.
  destruct (decide (0 ≤ rfind p sep)%Z) as [H|H].
  - destruct (rfind_found p sep H) as (a & b & -> & Hnot & ->).
    replace (Z.to_nat (Z.of_nat (length a) + 1)) with (length (a ++ [sep]))
      by (rewrite length_app; simpl; lia).
    by rewrite (cons_middle sep a b), app_assoc, drop_app_length.
  - pose proof (rfind_bounds p sep) as Hb.
    assert (rfind p sep = (-1)%Z) as Hm by lia. rewrite Hm.
    change (Z.to_nat (-1 + 1)) with 0. rewrite drop_0.
    intros Hin. apply rfind_present in Hin. lia.
Qed.

End MorePathFacts.

(** Case analysis on a run: which options were given and which call, if
    any, raised. *)
Ltac run_cases :=
  unfold calls, outcome, convert_wav;
  repeat match goal with
         | |- context [match ?o with Some _ => _ | None => _ end] =>
             is_var o; destruct o
         end;
  unfold mbind, W_bind, mret, W_ret, invoke; cbn [fst snd];
  repeat (match goal with
          | |- context [match ?c with (_, _) => _ end] =>
              lazymatch c with
              | context [match _ with (_, _) => _ end] => fail
              | context [match _ with inl _ => _ | inr _ => _ end] => fail
              | _ => first [destruct c as [[?|?] ?] | destruct c as [? ?]]
              end
          | |- context [match ?c with inl _ => _ | inr _ => _ end] =>
              lazymatch c with
              | context [match _ with (_, _) => _ end] => fail
              | context [match _ with inl _ => _ | inr _ => _ end] => fail
              | _ => destruct c as [?|?]
              end
          end; cbn [fst snd app]).

(** What is left of a hypothesis [ev ∈ l] for a list [l] that is written
    out. *)
Ltac elem_cases H :=
  repeat (apply elem_of_cons in H as [H|H]; [try discriminate H|]);
  [..|by apply elem_of_nil in H].

Ltac elem_here :=
  repeat first [apply list_elem_of_here | apply list_elem_of_further].

Section ConvertWavFacts.

Context {exts : ArchiveExts} {keys : SigMFKeys} {wav : WavWorld}.

Implicit Types (input : str) (w : os_state) (tr : list wav_event).

Lemma init_reaches_open {world : Collaborators} p skip_checksum map_readonly
    archive_buffer :
  endswith p SIGMF_ARCHIVE_EXT = true →
  ∃ res lg,
    SigMFArchiveReader.init (Some p) skip_checksum map_readonly archive_buffer
    = (res, EvOpenPath p :: lg).
Proof.
  intros Hext. destruct (tarfile_open_path p) as [tar|] eqn:Ht.
  - assert (SigMFArchiveReader.opens (Some p) archive_buffer tar) as Ho by done.
    destruct (try_block_opened (Some p) skip_checksum map_readonly archive_buffer
                tar Ho) as (res & evs & E & _).
    rewrite (init_of_try_block _ _ _ _ _ _ _ E). simpl. by eexists _, _.
  - unfold SigMFArchiveReader.init, try_finally, SigMFArchiveReader.finally_block,
      SigMFArchiveReader.try_block, SigMFArchiveReader.open_tar.
    rewrite Hext. unfold mbind, M_bind, emit. simpl. rewrite Ht. simpl.
    by eexists _, _.
Qed.

(** *** [os.path.join] with the temporary directory *)

Lemma path_join_absolute a rest : path_join a (sep :: rest) = sep :: rest.
Proof. done. Qed.

Lemma path_join_relative a c rest x :
  c ≠ sep → last a = Some x → x ≠ sep →
  path_join a (c :: rest) = a ++ sep :: c :: rest.
Proof.
  intros Hc Hl Hx. unfold path_join, startswith. simpl.
  rewrite (bool_decide_false ([c] = [sep])) by congruence.
  rewrite (endswith_last a x sep Hl Hx), orb_false_r.
  rewrite bool_decide_false; [done|]. intros E. by rewrite E in Hl.
Qed.

(** *** Runs of the converter *)

Lemma framed_ret {A} (a : A) : framed (mret a).
Proof. intros w tr. by rewrite app_nil_r. Qed.

Lemma framed_throw {A} e : framed (throw (A:=A) e).
Proof. intros w tr. by rewrite app_nil_r. Qed.

Lemma framed_invoke {A} (f : os_state → (wav_exn + A) * os_state) ev :
  framed (invoke f ev).
Proof. intros w tr. unfold invoke. simpl. by destruct (f w). Qed.

Lemma framed_record ev : framed (record ev).
Proof. by intros w tr. Qed.

Lemma framed_bind {A B} (m : W A) (k : A → W B) :
  framed m → (∀ a, framed (k a)) → framed (m ≫= k).
Proof.
  intros Hm Hk w tr. unfold mbind, W_bind.
  rewrite (Hm w tr). destruct (m (w, [])) as [[e|a] [w1 tr1]]; simpl.
  - done.
  - rewrite (Hk a w1 (tr ++ tr1)), (Hk a w1 tr1).
    destruct (k a (w1, [])) as [r [w2 tr2]]; simpl. by rewrite app_assoc.
Qed.

Lemma framed_convert_wav input archive_filename start_datetime author :
  framed (convert_wav input archive_filename start_datetime author).
Proof.
  unfold convert_wav.
  repeat first
    [ apply framed_bind; [|intros ?]
    | apply framed_invoke
    | apply framed_ret
    | progress case_match ].
Qed.

(** The converter handles no exception.  Every run makes at least one
    call; every call but the last returned; the run raises exactly when its
    last call raised, and then with the exception of that call.  When the
    run returns, its last call is [os.path.abspath] on the archive name,
    the one given or the default, and the value returned is what that call
    gave. *)
Theorem collaborator_failures_are_not_swallowed
    input archive_filename start_datetime author w :
  ∃ ev,
    last (calls (convert_wav input archive_filename start_datetime author) w)
    = Some ev
    ∧ Forall (λ e, failure e = None)
        (removelast (calls (convert_wav input archive_filename start_datetime author) w))
    ∧ match outcome (convert_wav input archive_filename start_datetime author) w with
      | inl e => failure ev = Some e
      | inr out =>
          ev = WvAbspath
                 (default (basename input ++ SIGMF_ARCHIVE_EXT) archive_filename)
                 (inr out)
      end.
Proof.
  run_cases.
  all: eexists; split; [reflexivity|]; cbn [removelast].
  all: split; [by repeat constructor|done].
Qed.

(** Without an [archive_filename], a conversion that returns has written
    the archive under the base name of the wav file plus the archive
    extension: a name without directory part (the archive goes to the
    current directory, wherever the wav file is).  The value returned is
    what [os.path.abspath] made of that name, the last call of the run, and
    [SigMFArchiveReader] called on that name gets past its extension check
    and goes on to open it. *)
Theorem default_archive_name_passes_the_reader_check
    input start_datetime author w out :
  outcome (convert_wav input None start_datetime author) w = inr out →
  (∃ meta,
     WvArchive meta (basename input ++ SIGMF_ARCHIVE_EXT) true (inr tt)
     ∈ calls (convert_wav input None start_datetime author) w)
  ∧ last (calls (convert_wav input None start_datetime author) w)
    = Some (WvAbspath (basename input ++ SIGMF_ARCHIVE_EXT) (inr out))
  ∧ (sep ∉ basename input)
  ∧ ∀ (world : Collaborators) skip_checksum map_readonly archive_buffer,
      ∃ res lg,
        SigMFArchiveReader.init (Some (basename input ++ SIGMF_ARCHIVE_EXT))
          skip_checksum map_readonly archive_buffer
        = (res, EvOpenPath (basename input ++ SIGMF_ARCHIVE_EXT) :: lg).
Proof.
  run_cases; intros Hout; simplify_eq.
  all: split; [eexists; repeat match goal with u : unit |- _ => destruct u end;
               elem_here|].
  all: split; [done|]; split; [apply basename_no_sep|].
  all: intros world sk ro buf; apply init_reaches_open, endswith_app.
Qed.

(** Once [tempfile.mkdtemp] has returned [tmpdir], the array that was read
    is written with [tofile] at [os.path.join(tmpdir, input + suffix)]: for
    an absolute input path that is the input path plus the dataset suffix,
    next to the wav file and outside the temporary directory; for a
    relative one it is the same path below the temporary directory,
    directory part included.  When that call raises, as it does for a
    relative input with a directory part that the fresh temporary directory
    does not have, the conversion ends with its error: no [SigMFFile] is
    made and no archive written.  When it returns, the [SigMFFile] is made
    on the path that was written. *)
Theorem dataset_file_is_written_at_the_joined_path
    input archive_filename start_datetime author w tmpdir :
  WvMkdtemp (inr tmpdir)
  ∈ calls (convert_wav input archive_filename start_datetime author) w →
  ∃ rate a res,
    WvRead input (inr (rate, a))
    ∈ calls (convert_wav input archive_filename start_datetime author) w
    ∧ WvTofile a (path_join tmpdir (input ++ SIGMF_DATASET_EXT)) res
      ∈ calls (convert_wav input archive_filename start_datetime author) w
    ∧ (∀ rest,
         input = sep :: rest →
         path_join tmpdir (input ++ SIGMF_DATASET_EXT) = input ++ SIGMF_DATASET_EXT)
    ∧ (∀ c rest x,
         input = c :: rest → c ≠ sep →
         last tmpdir = Some x → x ≠ sep →
         path_join tmpdir (input ++ SIGMF_DATASET_EXT)
         = tmpdir ++ sep :: input ++ SIGMF_DATASET_EXT)
    ∧ match res with
      | inl e =>
          outcome (convert_wav input archive_filename start_datetime author) w
          = inl e
          ∧ last (calls (convert_wav input archive_filename start_datetime author) w)
            = Some (WvTofile a (path_join tmpdir (input ++ SIGMF_DATASET_EXT)) res)
          ∧ Forall (λ ev, uses_dataset_file ev = false)
              (calls (convert_wav input archive_filename start_datetime author) w)
      | inr _ =>
          ∃ global_info r,
            WvSigMFFile (path_join tmpdir (input ++ SIGMF_DATASET_EXT)) global_info r
            ∈ calls (convert_wav input archive_filename start_datetime author) w
      end.
Proof.
  assert (∀ rest,
            input = sep :: rest →
            path_join tmpdir (input ++ SIGMF_DATASET_EXT)
            = input ++ SIGMF_DATASET_EXT) as Habs by by intros rest ->.
  assert (∀ c rest x,
            input = c :: rest → c ≠ sep →
            last tmpdir = Some x → x ≠ sep →
            path_join tmpdir (input ++ SIGMF_DATASET_EXT)
            = tmpdir ++ sep :: input ++ SIGMF_DATASET_EXT) as Hrel.
  { intros c rest x -> Hc Hl Hx. by apply (path_join_relative tmpdir c _ x). }
  revert Habs Hrel.
  run_cases; intros Habs Hrel Hin; elem_cases Hin; simplify_eq.
  all: eexists _, _, _; split; [elem_here|]; split; [elem_here|].
  all: split; [exact Habs|]; split; [exact Hrel|].
  all: cbn beta iota.
  all: try (split; [done|]; split; [done|]; by repeat constructor).
  all: eexists _, _; elem_here.
Qed.

(** Every capture the converter adds starts at sample 0, belongs to the
    [SigMFFile] the constructor has just returned and carries a datetime:
    the one passed in, or else the modification time of the wav file in ISO
    form followed by [Z]; the second test of [start_datetime] never fails.
    Unless the two keys coincide the capture holds the start index 0 and
    nothing but these two keys. *)
Theorem capture_always_carries_a_datetime
    input archive_filename start_datetime author w meta i metadata res :
  WvAddCapture meta i metadata res
  ∈ calls (convert_wav input archive_filename start_datetime author) w →
  i = 0%Z
  ∧ (∃ data_file global_info,
       WvSigMFFile data_file global_info (inr meta)
       ∈ calls (convert_wav input archive_filename start_datetime author) w)
  ∧ (∃ s,
       metadata !! DATETIME_KEY = Some (PStr s)
       ∧ match start_datetime with
         | Some given => s = given
         | None =>
             ∃ mtime,
               WvMtime input (inr mtime)
               ∈ calls (convert_wav input archive_filename start_datetime author) w
               ∧ s = mtime ++ lit "Z"
         end)
  ∧ (START_INDEX_KEY ≠ DATETIME_KEY →
     metadata !! START_INDEX_KEY = Some (PInt 0)
     ∧ dom metadata = ({[START_INDEX_KEY; DATETIME_KEY]} : gset str)).
Proof.
  run_cases; intros Hin; elem_cases Hin; simplify_eq.
  all: split; [done|]; split; [eexists _, _; elem_here|].
  all: split;
    [eexists; split; [apply lookup_insert_eq|];
     first [done | eexists; split; [elem_here|done]]|].
  all: intros Hne; split; [by rewrite lookup_insert_ne, lookup_insert_eq|].
  all: by rewrite !dom_insert_L, dom_empty_L, (right_id_L ∅ (∪)), (comm_L (∪)).
Qed.

Lemma level_lut_lookup verbose :
  (0 ≤ verbose)%Z →
  level_lut !! Z.min verbose 2
  = Some (if (verbose =? 0)%Z then WARNING
          else if (verbose =? 1)%Z then INFO else DEBUG).
Proof.
  intros Hv. unfold level_lut.
  destruct (verbose =? 0)%Z eqn:E0; [by replace (Z.min verbose 2) with 0%Z by lia|].
  destruct (verbose =? 1)%Z eqn:E1; [by replace (Z.min verbose 2) with 1%Z by lia|].
  by replace (Z.min verbose 2) with 2%Z by lia.
Qed.

Lemma level_lut_miss key : (key < 0)%Z → level_lut !! key = None.
Proof.
  intros Hk. unfold level_lut.
  rewrite !lookup_insert_ne by lia. apply lookup_empty.
Qed.

(** [main] finds a level for every count of [-v] that [argparse] can hand
    it: WARNING for none, INFO for one, DEBUG for two or more, and sets it
    before anything else happens.  It then is the conversion with the
    default archive name and the modification time as datetime, which no
    option of the command line changes: what the conversion raises, [main]
    raises, and when the conversion returns, [main] logs the path returned
    and ends.  The lookup itself is partial: a negative count would end
    [main] with a [KeyError] before anything is called. *)
Theorem main_runs_for_any_verbosity input author verbose w :
  ((0 ≤ verbose)%Z →
   calls (main input author verbose) w
   = WvBasicConfig (if (verbose =? 0)%Z then WARNING
                    else if (verbose =? 1)%Z then INFO else DEBUG)
     :: calls (convert_wav input None None author) w
     ++ match outcome (convert_wav input None None author) w with
        | inl _ => []
        | inr out_fname => [WvLogInfo (lit "Write " ++ out_fname)]
        end
   ∧ outcome (main input author verbose) w
     = match outcome (convert_wav input None None author) w with
       | inl e => inl e
       | inr _ => inr tt
       end)
  ∧ ((verbose < 0)%Z →
     calls (main input author verbose) w = []
     ∧ outcome (main input author verbose) w = inl (KeyError verbose)).
Proof.
  unfold calls, outcome, main. split.
  - intros Hv. rewrite (level_lut_lookup verbose Hv).
    unfold mbind, W_bind, mret, W_ret, record. cbn [fst snd app].
    rewrite (framed_convert_wav input None None author w [_]).
    destruct (convert_wav input None None author (w, [])) as [[e|out] [w' tr]];
      cbn [fst snd app]; [by rewrite app_nil_r|done].
  - intros Hv. rewrite Z.min_l by lia. by rewrite (level_lut_miss verbose Hv).
Qed.

End ConvertWavFacts.

(* ===================================================================== *)
(** ** More sample runs *)
(* ===================================================================== *)

Section MoreScenarios.

#[local] Existing Instance scenario_exts.

Lemma grouping_of_laid_out_container_witness :
  grouping (laid_out written_groups ++ written_trailer)
  = (λ g, ArchiveRecording.mk (Some g.1.2) (Some g.2)) <$> written_groups.
Proof.
  apply (grouping_of_laid_out_container written_groups).
  - repeat constructor.
  - repeat constructor.
Defined.

Lemma reader_reads_metadata_entries_only_witness :
  ∃ res j w,
    SigMFArchiveReader.init (world:=sample_world two_recordings reject_all)
      sample_path false true None
    = (res,
       [SigMFArchiveReader.open_event sample_path; EvGetMembers]
         ++ stdout (scan_members two_recordings)
         ++ (EvExtract <$> take j (metadata_entries two_recordings))
         ++ w ++ [EvClose])
    ∧ match res with
      | inl _ => w = []
      | inr _ =>
          j = length (metadata_entries two_recordings)
          ∧ w = if existsb (λ r, truthy (ArchiveRecording.data r))
                     (grouping two_recordings)
                then [] else [SigMFArchiveReader.no_dataset_warning]
      end.
Proof.
  exact (reader_reads_metadata_entries_only
           (world:=sample_world two_recordings reject_all)
           sample_path false true None (sample_tar two_recordings) two_recordings
           (scenario_opens two_recordings reject_all) eq_refl).
Defined.

Lemma container_without_metadata_yields_nothing_witness :
  SigMFArchiveReader.init (world:=scenario_world dataset_only)
    sample_path false true None
  = (inr (SigMFArchiveReader.mk sample_path []),
     [SigMFArchiveReader.open_event sample_path; EvGetMembers]
       ++ stdout (scan_members dataset_only)
       ++ [SigMFArchiveReader.no_dataset_warning; EvClose]).
Proof.
  exact (container_without_metadata_yields_nothing
           (world:=scenario_world dataset_only)
           sample_path false true None (sample_tar dataset_only) dataset_only
           (scenario_opens dataset_only accept_all) eq_refl eq_refl).
Defined.

Lemma warning_iff_no_dataset_reference_witness :
  ∃ self lg,
    SigMFArchiveReader.init (world:=scenario_world two_recordings)
      sample_path false true None = (inr self, lg)
    ∧ (SigMFArchiveReader.no_dataset_warning ∈ lg
       ↔ Forall (λ f, sf_data_file f = None) (SigMFArchiveReader.sigmffiles self)).
Proof.
  exact (warning_iff_no_dataset_reference
           (world:=scenario_world two_recordings)
           sample_path false true None (sample_tar two_recordings) two_recordings
           (scenario_opens two_recordings accept_all)
           (scenario_healthy two_recordings)).
Defined.

Lemma dataset_references_point_into_container_witness :
  ∃ self lg,
    SigMFArchiveReader.init (world:=scenario_world two_datasets)
      sample_path true false None = (inr self, lg)
    ∧ Forall (λ f, ∀ df,
          sf_data_file f = Some df →
          df_path df = sample_path
          ∧ df_buffer df = None
          ∧ df_skip_checksum df = true
          ∧ df_map_readonly df = false
          ∧ ∃ d, d ∈ two_datasets ∧ is_dataset d = true
                 ∧ df_offset df = TarInfo.offset_data d
                 ∧ df_size_bytes df = TarInfo.size d)
        (SigMFArchiveReader.sigmffiles self).
Proof.
  exact (dataset_references_point_into_container
           (world:=scenario_world two_datasets)
           sample_path true false None (sample_tar two_datasets) two_datasets
           (scenario_opens two_datasets accept_all)
           (scenario_healthy two_datasets)).
Defined.

Lemma library_failures_propagate_witness :
  SigMFArchiveReader.init (world:=scenario_world two_recordings)
    (Some (lit "missing.sigmf")) false true None
  = (inl ReadError, [EvOpenPath (lit "missing.sigmf")]).
Proof.
  exact (proj1 (library_failures_propagate
                  (world:=scenario_world two_recordings)
                  (Some (lit "missing.sigmf")) false true None)
           (lit "missing.sigmf") eq_refl eq_refl eq_refl).
Defined.

Lemma reader_items_follow_metadata_entries_witness :
  ∃ self lg,
    SigMFArchiveReader.init (world:=scenario_world two_recordings)
      sample_path false true None = (inr self, lg)
    ∧ SigMFArchiveReader.len self = length (metadata_entries two_recordings)
    ∧ (∀ i m,
         metadata_entries two_recordings !! i = Some m →
         ∃ f,
           Sequence.getitem self (Sequence.Index (Z.of_nat i)) = inr (inl f)
           ∧ Sequence.getitem self
               (Sequence.Index (Z.of_nat i - Z.of_nat (SigMFArchiveReader.len self)))
             = inr (inl f)
           ∧ sf_name f = SigMFArchiveReader.sigmffile_name m
           ∧ extractfile_read (sample_tar two_recordings) m = Some (sf_metadata f))
    ∧ (∀ i : Z,
         (i < - Z.of_nat (SigMFArchiveReader.len self)
          ∨ Z.of_nat (SigMFArchiveReader.len self) ≤ i)%Z →
         Sequence.getitem self (Sequence.Index i) = inl Sequence.IndexError).
Proof.
  exact (reader_items_follow_metadata_entries
           (world:=scenario_world two_recordings)
           sample_path false true None (sample_tar two_recordings) two_recordings
           (scenario_opens two_recordings accept_all)
           (scenario_healthy two_recordings)).
Defined.

Lemma reader_slices_are_runs_of_the_iteration_witness :
  Sequence.getitem
    (SigMFArchiveReader.mk sample_path
       [SigMFFile_new (lit "rec1") document; SigMFFile_new (lit "rec2") document;
        SigMFFile_new (lit "rec3") document])
    (Sequence.Slice (Some 1%Z) (Some 3%Z) None)
  = inr (inr [SigMFFile_new (lit "rec2") document;
              SigMFFile_new (lit "rec3") document]).
Proof.
  apply (proj1 (proj2 (reader_slices_are_runs_of_the_iteration
                         (SigMFArchiveReader.mk sample_path
                            [SigMFFile_new (lit "rec1") document;
                             SigMFFile_new (lit "rec2") document;
                             SigMFFile_new (lit "rec3") document])))
           1 3).
  unfold SigMFArchiveReader.len. simpl. lia.
Defined.

End MoreScenarios.

(* ===================================================================== *)
(** ** Sample conversions *)
(* ===================================================================== *)

Section WavScenarios.

#[local] Existing Instance scenario_exts.
#[local] Existing Instance core_keys.
#[local] Existing Instance sample_wav_world.

(** A wav file in the current directory: the dataset file goes to the
    temporary directory, the archive to the current directory. *)
Example conversion_of_tone :
  outcome (convert_wav (lit "tone.wav") None None None) sample_start
  = inr (lit "/home/alice/tone.wav.sigmf")
  ∧ failure <$> calls (convert_wav (lit "tone.wav") None None None) sample_start
    = replicate 10 None.
Proof. split; vm_compute; reflexivity. Qed.

(** A relative path with a directory part: the temporary directory has no
    such directory, [tofile] raises and so does the conversion. *)
Example conversion_of_sub_tone :
  outcome (convert_wav (lit "sub/tone.wav") None None None) sample_start
  = inl (Raised (lit "FileNotFoundError"))
  ∧ calls (convert_wav (lit "sub/tone.wav") None None None) sample_start
    = [WvRead (lit "sub/tone.wav") (inr (44100%Z, sample_array));
       WvGetuser (inr (lit "alice"));
       WvDataType sample_array (inr (lit "ri16_le"));
       WvMtime (lit "sub/tone.wav") (inr (lit "2024-01-02T03:04:05"));
       WvMkdtemp (inr (lit "/tmp/tmpab12cd"));
       WvTofile sample_array (lit "/tmp/tmpab12cd/sub/tone.wav.data")
         (inl (Raised (lit "FileNotFoundError")))].
Proof. split; vm_compute; reflexivity. Qed.

(** An absolute path: the dataset file is written next to the wav file. *)
Example conversion_of_data_tone :
  outcome (convert_wav (lit "/data/tone.wav") None None None) sample_start
  = inr (lit "/home/alice/tone.wav.sigmf")
  ∧ WvTofile sample_array (lit "/data/tone.wav.data") (inr tt)
    ∈ calls (convert_wav (lit "/data/tone.wav") None None None) sample_start.
Proof. split; [vm_compute; reflexivity|]. vm_compute. elem_here. Qed.

Lemma default_archive_name_passes_the_reader_check_witness :
  outcome (convert_wav (lit "/data/tone.wav") None None None) sample_start
  = inr (lit "/home/alice/tone.wav.sigmf")
  ∧ (∃ meta,
       WvArchive meta (basename (lit "/data/tone.wav") ++ SIGMF_ARCHIVE_EXT) true
         (inr tt)
       ∈ calls (convert_wav (lit "/data/tone.wav") None None None) sample_start)
  ∧ last (calls (convert_wav (lit "/data/tone.wav") None None None) sample_start)
    = Some (WvAbspath (basename (lit "/data/tone.wav") ++ SIGMF_ARCHIVE_EXT)
              (inr (lit "/home/alice/tone.wav.sigmf")))
  ∧ (sep ∉ basename (lit "/data/tone.wav"))
  ∧ ∀ (world : Collaborators) skip_checksum map_readonly archive_buffer,
      ∃ res lg,
        SigMFArchiveReader.init
          (Some (basename (lit "/data/tone.wav") ++ SIGMF_ARCHIVE_EXT))
          skip_checksum map_readonly archive_buffer
        = (res, EvOpenPath (basename (lit "/data/tone.wav") ++ SIGMF_ARCHIVE_EXT)
                  :: lg).
Proof.
  assert (outcome (convert_wav (lit "/data/tone.wav") None None None) sample_start
          = inr (lit "/home/alice/tone.wav.sigmf")) as H
    by (vm_compute; reflexivity).
  split; [exact H|].
  exact (default_archive_name_passes_the_reader_check
           (lit "/data/tone.wav") None None sample_start _ H).
Defined.

Lemma dataset_file_is_written_at_the_joined_path_witness :
  WvMkdtemp (inr (lit "/tmp/tmpab12cd"))
  ∈ calls (convert_wav (lit "sub/tone.wav") None None None) sample_start
  ∧ ∃ rate a res,
      WvRead (lit "sub/tone.wav") (inr (rate, a))
      ∈ calls (convert_wav (lit "sub/tone.wav") None None None) sample_start
      ∧ WvTofile a
          (path_join (lit "/tmp/tmpab12cd") (lit "sub/tone.wav" ++ SIGMF_DATASET_EXT))
          res
        ∈ calls (convert_wav (lit "sub/tone.wav") None None None) sample_start
      ∧ (∀ rest,
           lit "sub/tone.wav" = sep :: rest →
           path_join (lit "/tmp/tmpab12cd") (lit "sub/tone.wav" ++ SIGMF_DATASET_EXT)
           = lit "sub/tone.wav" ++ SIGMF_DATASET_EXT)
      ∧ (∀ c rest x,
           lit "sub/tone.wav" = c :: rest → c ≠ sep →
           last (lit "/tmp/tmpab12cd") = Some x → x ≠ sep →
           path_join (lit "/tmp/tmpab12cd") (lit "sub/tone.wav" ++ SIGMF_DATASET_EXT)
           = lit "/tmp/tmpab12cd" ++ sep :: lit "sub/tone.wav" ++ SIGMF_DATASET_EXT)
      ∧ match res with
        | inl e =>
            outcome (convert_wav (lit "sub/tone.wav") None None None) sample_start
            = inl e
            ∧ last (calls (convert_wav (lit "sub/tone.wav") None None None)
                      sample_start)
              = Some (WvTofile a
                        (path_join (lit "/tmp/tmpab12cd")
                           (lit "sub/tone.wav" ++ SIGMF_DATASET_EXT)) res)
            ∧ Forall (λ ev, uses_dataset_file ev = false)
                (calls (convert_wav (lit "sub/tone.wav") None None None)
                   sample_start)
        | inr _ =>
            ∃ global_info r,
              WvSigMFFile
                (path_join (lit "/tmp/tmpab12cd")
                   (lit "sub/tone.wav" ++ SIGMF_DATASET_EXT)) global_info r
              ∈ calls (convert_wav (lit "sub/tone.wav") None None None)
                  sample_start
        end.
Proof.
  assert (WvMkdtemp (inr (lit "/tmp/tmpab12cd"))
          ∈ calls (convert_wav (lit "sub/tone.wav") None None None) sample_start)
    as H by (vm_compute; elem_here).
  split; [exact H|].
  exact (dataset_file_is_written_at_the_joined_path
           (lit "sub/tone.wav") None None None sample_start _ H).
Defined.

Lemma capture_always_carries_a_datetime_witness :
  ∃ metadata,
    WvAddCapture 0 0 metadata (inr tt)
    ∈ calls (convert_wav (lit "tone.wav") None None None) sample_start
    ∧ 0%Z = 0%Z
    ∧ (∃ data_file global_info,
         WvSigMFFile data_file global_info (inr 0)
         ∈ calls (convert_wav (lit "tone.wav") None None None) sample_start)
    ∧ (∃ s,
         metadata !! DATETIME_KEY = Some (PStr s)
         ∧ ∃ mtime,
             WvMtime (lit "tone.wav") (inr mtime)
             ∈ calls (convert_wav (lit "tone.wav") None None None) sample_start
             ∧ s = mtime ++ lit "Z")
    ∧ (START_INDEX_KEY ≠ DATETIME_KEY →
       metadata !! START_INDEX_KEY = Some (PInt 0)
       ∧ dom metadata = ({[START_INDEX_KEY; DATETIME_KEY]} : gset str)).
Proof.
  assert (∃ metadata,
            WvAddCapture 0 0 metadata (inr tt)
            ∈ calls (convert_wav (lit "tone.wav") None None None) sample_start)
    as [metadata H] by (eexists; vm_compute; elem_here).
  exists metadata. split; [exact H|].
  exact (capture_always_carries_a_datetime
           (lit "tone.wav") None None None sample_start 0 0%Z metadata (inr tt) H).
Defined.

Lemma main_runs_for_any_verbosity_witness :
  ((0 ≤ 5)%Z
   ∧ calls (main (lit "tone.wav") None 5) sample_start
     = WvBasicConfig DEBUG
       :: calls (convert_wav (lit "tone.wav") None None None) sample_start
       ++ match outcome (convert_wav (lit "tone.wav") None None None) sample_start with
          | inl _ => []
          | inr out_fname => [WvLogInfo (lit "Write " ++ out_fname)]
          end
   ∧ outcome (main (lit "tone.wav") None 5) sample_start
     = match outcome (convert_wav (lit "tone.wav") None None None) sample_start with
       | inl e => inl e
       | inr _ => inr tt
       end)
  ∧ ((-1 < 0)%Z
     ∧ calls (main (lit "tone.wav") None (-1)) sample_start = []
     ∧ outcome (main (lit "tone.wav") None (-1)) sample_start = inl (KeyError (-1))).
Proof.
  assert (0 ≤ 5)%Z as H by lia.
  assert (-1 < 0)%Z as H' by lia.
  split; (split; [done|]).
  - exact (proj1 (main_runs_for_any_verbosity (lit "tone.wav") None 5 sample_start) H).
  - exact (proj2 (main_runs_for_any_verbosity (lit "tone.wav") None (-1) sample_start)
             H').
Defined.

(** The whole of a run of [main]. *)
Example main_on_tone :
  outcome (main (lit "tone.wav") None 5) sample_start = inr tt
  ∧ last (calls (main (lit "tone.wav") None 5) sample_start)
    = Some (WvLogInfo (lit "Write /home/alice/tone.wav.sigmf"))
  ∧ outcome (main (lit "sub/tone.wav") None 0) sample_start
    = inl (Raised (lit "FileNotFoundError"))
  ∧ outcome (main (lit "tone.wav") None (-1)) sample_start = inl (KeyError (-1)).
Proof. repeat split; vm_compute; reflexivity. Qed.

End WavScenarios.

(* ===================================================================== *)
(** ** Names are not keys *)
(* ===================================================================== *)

Section ReaderNames.

Context {exts : ArchiveExts} {world : Collaborators}.

Variable path : option str.
Variable skip_checksum : bool.
Variable map_readonly : bool.
Variable archive_buffer : option bytes.

Local Abbreviation init :=
  (SigMFArchiveReader.init path skip_checksum map_readonly archive_buffer).
Local Abbreviation opens := (SigMFArchiveReader.opens path archive_buffer).

(** The name of a recording does not tell recordings apart: the recordings
    of two metadata entries that lie in the same directory get the same
    name, the directory, whatever the two files are called. *)
Theorem recordings_in_one_directory_share_a_name
    tar members i j mi mj dir filei filej x :
  opens tar →
  SigMFArchiveReader.healthy tar members →
  metadata_entries members !! i = Some mi →
  metadata_entries members !! j = Some mj →
  TarInfo.name mi = dir ++ sep :: filei →
  TarInfo.name mj = dir ++ sep :: filej →
  sep ∉ filei → sep ∉ filej →
  last dir = Some x → x ≠ sep →
  ∃ self lg f g,
    init = (inr self, lg)
    ∧ SigMFArchiveReader.sigmffiles self !! i = Some f
    ∧ SigMFArchiveReader.sigmffiles self !! j = Some g
    ∧ sf_name f = dir
    ∧ sf_name g = dir.
Proof.
  intros Ho Hh Hi Hj Hni Hnj Hfi Hfj Hl Hx.
  destruct (init_healthy path skip_checksum map_readonly archive_buffer
              tar members Ho Hh) as (files & Hloads & E).
  pose proof (loads_metadata path skip_checksum map_readonly archive_buffer
                tar _ files _ Hloads (grouping_metadata members)) as HF.
  destruct (Forall2_lookup_r _ _ _ _ _ HF Hi) as (f & Hf & Hnf & _).
  destruct (Forall2_lookup_r _ _ _ _ _ HF Hj) as (g & Hg & Hng & _).
  eexists (SigMFArchiveReader.mk path files), _, f, g.
  split; [exact E|]. simpl. repeat split; try done.
  - rewrite Hnf. unfold SigMFArchiveReader.sigmffile_name. rewrite Hni.
    by apply (name_is_directory dir filei x).
  - rewrite Hng. unfold SigMFArchiveReader.sigmffile_name. rewrite Hnj.
    by apply (name_is_directory dir filej x).
Qed.

End ReaderNames.

Section NameScenario.

#[local] Existing Instance scenario_exts.

Lemma recordings_in_one_directory_share_a_name_witness :
  ∃ self lg f g,
    SigMFArchiveReader.init (world:=scenario_world one_directory)
      sample_path false true None = (inr self, lg)
    ∧ SigMFArchiveReader.sigmffiles self !! 0 = Some f
    ∧ SigMFArchiveReader.sigmffiles self !! 1 = Some g
    ∧ sf_name f = lit "day1"
    ∧ sf_name g = lit "day1".
Proof.
  refine (recordings_in_one_directory_share_a_name
            (world:=scenario_world one_directory)
            sample_path false true None (sample_tar one_directory) one_directory
            0 1 (regular "day1/morning.meta" 512 96)
            (regular "day1/evening.meta" 6144 128)
            (lit "day1") (lit "morning.meta") (lit "evening.meta") "1"%char
            (scenario_opens one_directory accept_all)
            (scenario_healthy one_directory)
            eq_refl eq_refl eq_refl eq_refl _ _ eq_refl _).
  - vm_compute. intros H. repeat (apply elem_of_cons in H as [H|H]; [discriminate H|]).
    by apply elem_of_nil in H.
  - vm_compute. intros H. repeat (apply elem_of_cons in H as [H|H]; [discriminate H|]).
    by apply elem_of_nil in H.
  - discriminate.
Defined.

End NameScenario.
